(** * OAuth token lifecycle of the e-mail relay: a shallow embedding

    The development follows [oauth_manager.py] (class [OAuthManager]) and
    the [/auth/refresh] handler of [send_email.py].  The manager is a
    stateful object that reads and writes a token file, calls the provider's
    SDK and raises Python exceptions; it is modelled by explicit state
    passing over a [World] in a small state-and-exception monad in which,
    as in Python, the state reached when an exception is raised is kept. *)

From Stdlib Require Import ZArith String Ascii List Bool Lia.
Import ListNotations.

Local Open Scope string_scope.
Local Open Scope Z_scope.

(** ** Exceptions *)

Module Py.

(** The exception classes the program distinguishes.  [JSONDecodeError] and
    [UnicodeDecodeError] are subclasses of [ValueError] and are filed under
    it; [PermissionError] and [IsADirectoryError] under [OSError]. *)
Inductive exn_class : Type :=
| ValueError
| KeyError
| OSError
| AttributeError
| RefreshError
| TransportError
| HTTPException (status_code : Z).

(** An exception: its class and its text ([str(e)]; for an [HTTPException]
    the [detail]). *)
Record exn : Type := Exn { class_of : exn_class; str : string }.

Definition class_eqb (a b : exn_class) : bool :=
  match a, b with
  | ValueError, ValueError
  | KeyError, KeyError
  | OSError, OSError
  | AttributeError, AttributeError
  | RefreshError, RefreshError
  | TransportError, TransportError => true
  | HTTPException s, HTTPException t => Z.eqb s t
  | _, _ => false
  end.

(** [isinstance e classes], for an [except (A, B)] clause. *)
Definition isinstance (e : exn) (classes : list exn_class) : bool :=
  existsb (class_eqb (class_of e)) classes.

(** What a call gives back: a value, or a raised exception. *)
Inductive outcome (A : Type) : Type :=
| Return (a : A)
| Raise (e : exn).
Arguments Return {A} a.
Arguments Raise {A} e.

(** Truthiness of an optional string: [None] and [''] are falsy. *)
Definition truthy (s : option string) : bool :=
  match s with
  | Some (String _ _) => true
  | _ => false
  end.

End Py.
Import Py.

(** ** Credentials *)

(** The fields of the SDK's [Credentials] object that the data model of the
    manager names. *)
Record Credentials : Type := mkCredentials {
  token : option string;
  refresh_token : option string;
  expiry : option Z;
  scopes : list string
}.

(** Modelled from the spec: the SDK property [Credentials.expired], whose
    code is not part of the repository: a credential is expired when an
    expiry is recorded and the current time is not before it. *)
Definition expired (c : Credentials) (now : Z) : bool :=
  match expiry c with
  | None => false
  | Some e => e <=? now
  end.

(** Modelled from the spec: the SDK property [Credentials.valid], whose code
    is not part of the repository: "a Credential is valid iff it has a
    non-empty access token AND (no expiry is recorded OR current time is
    before expiry)". *)
Definition valid (c : Credentials) (now : Z) : bool :=
  truthy (token c) && negb (expired c now).

(** Modelled from the spec: what a successful [Credentials.refresh] does to
    the object it is called on: it "mutates expiry/access token, preserves
    refresh token". *)
Definition refreshed (c : Credentials) (access : string) (exp : option Z)
  : Credentials :=
  {| token := Some access;
     refresh_token := refresh_token c;
     expiry := exp;
     scopes := scopes c |}.

(** Equality on the four fields of the round-trip property. *)
Definition same_fields (c d : Credentials) : Prop :=
  token c = token d /\ refresh_token c = refresh_token d /\
  expiry c = expiry d /\ scopes c = scopes d.

(** ** The world the manager runs in *)

(** The token file: its text, and whether the process may open it for
    reading ([open(path, 'r')] raises [PermissionError] otherwise). *)
Record file : Type := mkFile { readable : bool; content : string }.

(** The calls that leave the process or change the token file, in the order
    they are made. *)
Inductive event : Type :=
| EvRefresh (c : Credentials)          (* credentials.refresh(request) on c *)
| EvAuthorize                          (* the interactive flow is started *)
| EvRevoke (tok : option string)       (* a POST to /revoke with token=tok *)
| EvWrite (text : string)              (* token file opened for writing *)
| EvRemove.                            (* os.remove(token_file) *)

Record World : Type := mkWorld {
  credentials : option Credentials;    (* self.credentials *)
  token_file : option file;            (* the file at self.token_file *)
  clock : Z;                           (* the current time, in seconds *)
  log : list event;
  (* whether open(self.token_file, 'w') is permitted: on the file when it
     exists, on its directory when it has to be created *)
  writable : bool
}.

(** The provider's SDK and endpoints, which are not part of the repository.
    A network call reports the time it took and what it gave back. *)
Record Env : Type := mkEnv {
  (* json.loads followed by Credentials.from_authorized_user_info *)
  from_authorized_user_info : string -> Z -> outcome Credentials;
  (* Credentials.to_json *)
  to_json : Credentials -> string;
  (* Credentials.refresh: the new access token and expiry *)
  refresh : Credentials -> Z -> N * outcome (string * option Z);
  (* InstalledAppFlow.from_client_secrets_file + run_local_server *)
  run_local_server : Z -> N * outcome Credentials
}.

Definition SCOPES : list string :=
  ["https://www.googleapis.com/auth/gmail.send"].
Definition REDIRECT_URI : string := "http://localhost:3000".
Definition token_expiry_buffer : Z := 300.

(** ** The monad *)

Definition M (A : Type) : Type := World -> outcome A * World.

Definition ret {A} (a : A) : M A := fun w => (Return a, w).

Definition raise {A} (e : exn) : M A := fun w => (Raise e, w).

Definition bind {A B} (m : M A) (k : A -> M B) : M B :=
  fun w =>
    match m w with
    | (Return a, w') => k a w'
    | (Raise e, w') => (Raise e, w')
    end.

(** [try: m except classes as e: h e]; the state at the raise is kept. *)
Definition try_except {A} (m : M A) (classes : list exn_class)
    (h : exn -> M A) : M A :=
  fun w =>
    match m w with
    | (Raise e, w') => if isinstance e classes then h e w' else (Raise e, w')
    | r => r
    end.

(** [try: m except Exception as e: h e]. *)
Definition try_except_Exception {A} (m : M A) (h : exn -> M A) : M A :=
  fun w =>
    match m w with
    | (Raise e, w') => h e w'
    | r => r
    end.

Definition get : M World := fun w => (Return w, w).

Definition lift {A} (r : outcome A) : M A := fun w => (r, w).

Declare Scope py_scope.
Delimit Scope py_scope with py.
Notation "x <- m ;; k" := (bind m (fun x => k))
  (at level 61, m at next level, right associativity) : py_scope.
Notation "m ;; k" := (bind m (fun _ => k))
  (at level 61, right associativity) : py_scope.
Local Open Scope py_scope.

(** State updates. *)
Definition with_credentials (c : option Credentials) (w : World) : World :=
  {| credentials := c; token_file := token_file w;
     clock := clock w; log := log w; writable := writable w |}.

Definition with_token_file (f : option file) (w : World) : World :=
  {| credentials := credentials w; token_file := f;
     clock := clock w; log := log w; writable := writable w |}.

Definition logged (ev : event) (w : World) : World :=
  {| credentials := credentials w; token_file := token_file w;
     clock := clock w; log := log w ++ [ev]; writable := writable w |}.

Definition later (d : N) (w : World) : World :=
  {| credentials := credentials w; token_file := token_file w;
     clock := clock w + Z.of_N d; log := log w; writable := writable w |}.

Definition set_credentials (c : option Credentials) : M unit :=
  fun w => (Return tt, with_credentials c w).

Definition set_token_file (f : option file) : M unit :=
  fun w => (Return tt, with_token_file f w).

Definition emit (ev : event) : M unit :=
  fun w => (Return tt, logged ev w).

Definition sleep (d : N) : M unit :=
  fun w => (Return tt, later d w).

(** A network call: it is logged, takes its time and gives its outcome. *)
Definition call {A} (ev : event) (r : N * outcome A) : M A :=
  emit ev ;; sleep (fst r) ;; lift (snd r).

(** ** The token file *)

(** [open(token_file, 'r')], [token.read()], [json.loads] and
    [Credentials.from_authorized_user_info], on an existing file. *)
Definition read_token_file (env : Env) (f : file) (now : Z)
  : outcome Credentials :=
  if readable f then from_authorized_user_info env (content f) now
  else Raise (Exn OSError "[Errno 13] Permission denied").

(** The [PermissionError] of an [open] that is not permitted. *)
Definition permission_denied : exn :=
  Exn OSError "[Errno 13] Permission denied".

(** [open(token_file, 'w')] and [token.write(text)]: the file is created or
    its text replaced; when the file may not be opened for writing, [open]
    raises and the file is left as it is. *)
Definition write_token_file (text : string) : M unit :=
  w <- get ;;
  if writable w then
    emit (EvWrite text) ;;
    set_token_file
      (Some {| readable := match token_file w with
                           | Some f => readable f
                           | None => true
                           end;
               content := text |})
  else raise permission_denied.

(** ** [OAuthManager] *)

Section Manager.

Variable env : Env.

(** [_save_credentials]. *)
Definition _save_credentials : M unit :=
  w <- get ;;
  match credentials w with
  | Some c =>
      if valid c (clock w) then write_token_file (to_json env c)
      else ret tt
  | None => ret tt
  end.

(** The [HTTPException] raised when the interactive flow fails with
    [cause]. *)
Definition authentication_failed (cause : string) : exn :=
  Exn (HTTPException 500)
      ("Authentication failed: " ++ cause ++
       ". Please ensure your redirect URIs are properly configured in Google Cloud Console.")%string.

(** [_run_oauth_flow]. *)
Definition _run_oauth_flow : M Credentials :=
  try_except_Exception
    (w <- get ;;
     c <- call EvAuthorize (run_local_server env (clock w)) ;;
     set_credentials (Some c) ;;
     _save_credentials ;;
     ret c)
    (fun e => raise (authentication_failed (str e))).

(** [self.credentials.refresh(request)]: on success the object held in
    [self.credentials] is updated in place. *)
Definition refresh_in_place : M Credentials :=
  w <- get ;;
  match credentials w with
  | None =>
      raise (Exn AttributeError "'NoneType' object has no attribute 'refresh'")
  | Some c =>
      r <- call (EvRefresh c) (refresh env c (clock w)) ;;
      let c' := refreshed c (fst r) (snd r) in
      set_credentials (Some c') ;;
      ret c'
  end.

(** [_refresh_token]. *)
Definition _refresh_token : M Credentials :=
  try_except
    (c <- refresh_in_place ;;
     _save_credentials ;;
     ret c)
    [RefreshError]
    (fun _ => _run_oauth_flow).

(** Lines 23-30 of [get_credentials]: the token file, when it exists,
    replaces the credential held in memory. *)
Definition load_token_file : M unit :=
  w <- get ;;
  match token_file w with
  | Some f =>
      try_except
        (c <- lift (read_token_file env f (clock w)) ;;
         set_credentials (Some c))
        [ValueError; KeyError]
        (fun _ => set_credentials None)
  | None => ret tt
  end.

(** Lines 32-37 of [get_credentials]. *)
Definition use_or_renew : M Credentials :=
  w <- get ;;
  match credentials w with
  | None => _run_oauth_flow
  | Some c =>
      if negb (valid c (clock w)) then
        if expired c (clock w) && truthy (refresh_token c)
        then _refresh_token
        else _run_oauth_flow
      else ret c
  end.

(** [get_credentials]. *)
Definition get_credentials : M Credentials :=
  load_token_file ;; use_or_renew.

(** [_is_token_expired_or_expiring_soon]. *)
Definition _is_token_expired_or_expiring_soon (w : World) : bool :=
  match credentials w with
  | None => true
  | Some c =>
      match expiry c with
      | None => true
      | Some e => e <=? clock w + token_expiry_buffer
      end
  end.

(** The guard of [revoke_token]:
    [self.credentials and self.credentials.valid]. *)
Definition has_valid_credentials (w : World) : bool :=
  match credentials w with
  | Some c => valid c (clock w)
  | None => false
  end.

(** [if os.path.exists(self.token_file): os.remove(self.token_file)]. *)
Definition remove_token_file : M unit :=
  w <- get ;;
  match token_file w with
  | Some _ => emit EvRemove ;; set_token_file None
  | None => ret tt
  end.

(** [request.post(url, params=..., headers=...)] on [request = Request()]:
    the SDK's [Request] is a callable that has no attribute [post], so the
    attribute lookup raises before any request is made; nothing is sent to
    the revoke endpoint and no response comes back. *)
Definition request_post (url : string) (tok : option string) : M Z :=
  raise (Exn AttributeError "'Request' object has no attribute 'post'").

(** [revoke_token]. *)
Definition revoke_token : M bool :=
  w <- get ;;
  if has_valid_credentials w then
    try_except_Exception
      (c <- refresh_in_place ;;
       status_code <-
         request_post "https://oauth2.googleapis.com/revoke" (token c) ;;
       if status_code =? 200 then remove_token_file ;; ret true
       else ret false)
      (fun _ => ret false)
  else ret false.

(** ** The [/auth/refresh] handler of [send_email.py] *)

(** The handler's JSON answer: success with the expiry of the credential
    ([None] for "Unknown"), or failure with the exception that caused it. *)
Inductive refresh_response : Type :=
| Refreshed (exp : option Z)
| RefreshFailed (cause : exn).

(** [oauth_manager.credentials.expiry = datetime.datetime.utcnow()]. *)
Definition expire_now : M unit :=
  w <- get ;;
  match credentials w with
  | Some c =>
      set_credentials
        (Some {| token := token c; refresh_token := refresh_token c;
                 expiry := Some (clock w); scopes := scopes c |})
  | None => ret tt
  end.

(** [force_refresh]. *)
Definition force_refresh : World -> refresh_response * World :=
  fun w =>
    match (expire_now ;; get_credentials) w with
    | (Return creds, w') => (Refreshed (expiry creds), w')
    | (Raise e, w') => (RefreshFailed e, w')
    end.

End Manager.

(** ** The contracts, as predicates on runs *)

(** What the specification asks of a run of [get_credentials]: a credential valid at
    the moment of return, or an authentication failure built from a cause. *)
Definition valid_or_authentication_failure
    (r : outcome Credentials * World) : Prop :=
  match r with
  | (Return c, w') => valid c (clock w') = true
  | (Raise e, _) => exists cause, e = authentication_failed cause
  end.


(** The provider hands back valid credentials: a refresh that succeeds
    leaves a credential valid at the time it completes, and so does the
    interactive flow. *)
Definition provider_yields_valid (env : Env) : Prop :=
  (forall c now d access exp,
      refresh env c now = (d, Return (access, exp)) ->
      valid (refreshed c access exp) (now + Z.of_N d) = true) /\
  (forall now d c,
      run_local_server env now = (d, Return c) ->
      valid c (now + Z.of_N d) = true).

(** The state in which a run of [get_credentials] from [w] starts the
    interactive flow: no credential in hand; a credential that is neither
    valid nor refreshable; or a refresh rejected with a [RefreshError]. *)
Inductive flow_starts (env : Env) (w : World) : World -> Prop :=
| flow_without_credential w1 :
    load_token_file env w = (Return tt, w1) ->
    credentials w1 = None ->
    flow_starts env w w1
| flow_without_refresh w1 c :
    load_token_file env w = (Return tt, w1) ->
    credentials w1 = Some c ->
    valid c (clock w1) = false ->
    expired c (clock w1) && truthy (refresh_token c) = false ->
    flow_starts env w w1
| flow_after_refresh_error w1 c d e :
    load_token_file env w = (Return tt, w1) ->
    credentials w1 = Some c ->
    expired c (clock w1) = true ->
    truthy (refresh_token c) = true ->
    refresh env c (clock w1) = (d, Raise e) ->
    isinstance e [RefreshError] = true ->
    flow_starts env w (later d (logged (EvRefresh c) w1)).

(** Where the exceptions of a run of [get_credentials] from [w] come from:
    the read of the token file, the refresh, the write that follows a
    refresh, and the interactive flow (its own failure, or that of the
    write that follows it), which alone is reported as an authentication
    failure. *)
Inductive raises_from (env : Env) (w : World) : exn -> Prop :=
| raised_by_read f e :
    token_file w = Some f ->
    read_token_file env f (clock w) = Raise e ->
    isinstance e [ValueError; KeyError] = false ->
    raises_from env w e
| raised_by_refresh w1 c d e :
    load_token_file env w = (Return tt, w1) ->
    credentials w1 = Some c ->
    expired c (clock w1) = true ->
    truthy (refresh_token c) = true ->
    refresh env c (clock w1) = (d, Raise e) ->
    isinstance e [RefreshError] = false ->
    raises_from env w e
| raised_by_write w1 c d access exp :
    load_token_file env w = (Return tt, w1) ->
    credentials w1 = Some c ->
    expired c (clock w1) = true ->
    truthy (refresh_token c) = true ->
    refresh env c (clock w1) = (d, Return (access, exp)) ->
    valid (refreshed c access exp) (clock w1 + Z.of_N d) = true ->
    writable w = false ->
    raises_from env w permission_denied
| raised_by_flow w2 d cause :
    flow_starts env w w2 ->
    run_local_server env (clock w2) = (d, Raise cause) ->
    raises_from env w (authentication_failed (str cause))
| raised_by_flow_write w2 d c :
    flow_starts env w w2 ->
    run_local_server env (clock w2) = (d, Return c) ->
    valid c (clock w2 + Z.of_N d) = true ->
    writable w = false ->
    raises_from env w (authentication_failed (str permission_denied)).

(** What the specification asks of a run that refreshes with success: the
    refreshed credential is returned and the token file holds it. *)
Definition persisted_and_returned (env : Env) (w : World) (c : Credentials)
  : Prop :=
  exists w' f,
    get_credentials env w = (Return c, w') /\
    token_file w' = Some f /\ content f = to_json env c.

(** What the specification asks of the store: the credential [c] held in
    [w], once saved, is loaded back with its four fields from the file so
    written. *)
Definition round_trips (env : Env) (w : World) (c : Credentials) : Prop :=
  forall w2,
    token_file w2 = token_file (snd (_save_credentials env w)) ->
    exists w3 d,
      load_token_file env w2 = (Return tt, w3) /\
      credentials w3 = Some d /\ same_fields c d.

(** ** The calls of one renewal *)

(** The world after [open(token_file, 'w')] and [token.write(text)]. *)
Definition written (text : string) (w : World) : World :=
  with_token_file
    (Some {| readable := match token_file w with
                         | Some f => readable f
                         | None => true
                         end;
             content := text |})
    (logged (EvWrite text) w).

(** The sequences of calls that [get_credentials] is seen to make: at most
    one refresh, at most one authorization and at most one write, in that
    order. *)
Inductive renewal_trace : list event -> Prop :=
| trace_none : renewal_trace []
| trace_refresh c : renewal_trace [EvRefresh c]
| trace_refresh_write c text : renewal_trace [EvRefresh c; EvWrite text]
| trace_refresh_flow c : renewal_trace [EvRefresh c; EvAuthorize]
| trace_refresh_flow_write c text :
    renewal_trace [EvRefresh c; EvAuthorize; EvWrite text]
| trace_flow : renewal_trace [EvAuthorize]
| trace_flow_write text : renewal_trace [EvAuthorize; EvWrite text].

(** What one run did to the token file: nothing, or it now holds the text
    of the credential that is returned, valid at that time. *)
Definition file_kept_or_renewed (env : Env) (w : World) (evs : list event)
    (r : outcome Credentials * World) : Prop :=
  (token_file (snd r) = token_file w /\ forall text, ~ In (EvWrite text) evs) \/
  (exists c,
      fst r = Return c /\ valid c (clock (snd r)) = true /\
      token_file (snd r) = token_file (written (to_json env c) w) /\
      forall text, In (EvWrite text) evs -> text = to_json env c).

(** What one run of a renewal does: it adds [evs] to the log, holds in
    memory the credential it returns, and keeps or renews the file. *)
Definition renewal_effects (env : Env) (w : World) (evs : list event)
    (r : outcome Credentials * World) : Prop :=
  log (snd r) = (log w ++ evs)%list /\
  match fst r with
  | Return c => credentials (snd r) = Some c
  | Raise _ => True
  end /\
  file_kept_or_renewed env w evs r.

(** * The mail relay of [send_email.py] *)

Module Mail.

(** ** Paths (POSIX) *)

Definition is_slash (a : ascii) : bool := Ascii.eqb a "/".

Fixpoint has_slash (s : string) : bool :=
  match s with
  | EmptyString => false
  | String a r => is_slash a || has_slash r
  end.

Definition starts_with_slash (s : string) : bool :=
  match s with
  | String a _ => is_slash a
  | EmptyString => false
  end.

Fixpoint ends_with_slash (s : string) : bool :=
  match s with
  | EmptyString => false
  | String a EmptyString => is_slash a
  | String _ r => ends_with_slash r
  end.

(** [os.path.join(a, b)]. *)
Definition path_join (a b : string) : string :=
  if starts_with_slash b then b
  else if (a =? "")%string || ends_with_slash a then (a ++ b)%string
  else (a ++ "/" ++ b)%string.

(** [os.path.basename(s)]: what follows the last slash. *)
Fixpoint basename (s : string) : string :=
  match s with
  | EmptyString => EmptyString
  | String _ r => if has_slash s then basename r else s
  end.

(** [s.split('/', 1)], when it gives two pieces. *)
Fixpoint split_once (s : string) : option (string * string) :=
  match s with
  | EmptyString => None
  | String a r =>
      if is_slash a then Some (EmptyString, r)
      else match split_once r with
           | Some (x, y) => Some (String a x, y)
           | None => None
           end
  end.

(** ** Data *)

(** The exceptions of the relay: those of the token manager, and two
    classes the manager does not meet. *)
Inductive raised : Type :=
| Base (e : exn)
| HttpError (msg : string)            (* googleapiclient.errors.HttpError *)
| TypeError (msg : string).

Inductive result (A : Type) : Type :=
| Ok (a : A)
| Err (r : raised).
Arguments Ok {A} a.
Arguments Err {A} r.

(** [Recipient]; [attachments] is [Optional[List[str]]]. *)
Record Recipient : Type := mkRecipient {
  email : string;
  subject : string;
  body : string;
  attachments : option (list string)
}.

(** The MIME object built for one part; a [MIMEBase] part is the one whose
    payload is encoded with [encode_base64]. *)
Inductive mime_class : Type :=
| MIMEText
| MIMEImage (subtype : string)
| MIMEAudio (subtype : string)
| MIMEBase (maintype subtype : string).

Record mime_part : Type := mkPart {
  part_class : mime_class;
  part_payload : string;               (* what was read from the file *)
  part_filename : option string        (* Content-Disposition: attachment *)
}.

(** The [MIMEMultipart] message; the function returns its bytes, base64url
    encoded, under the key ['raw']. *)
Record mime_message : Type := mkMessage {
  header_to : string;
  header_from : string;
  header_subject : string;
  header_date : Z;
  parts : list mime_part
}.

(** The answer of [service.users().messages().send(...).execute()]. *)
Inductive send_reply : Type :=
| Accepted (id : option string)        (* the response, with or without 'id' *)
| Rejected (msg : string)              (* raises HttpError *)
| Failed (e : exn).                    (* raises something else *)

(** The libraries and services of the relay, which are not part of the
    repository. *)
Record Services : Type := mkServices {
  (* mimetypes.guess_type: content type and encoding *)
  guess_type : string -> option string * option string;
  (* os.path.isfile *)
  isfile : string -> bool;
  (* open(path) and file.read() *)
  read_file : string -> outcome string;
  (* googleapiclient.discovery.build('gmail', 'v1', credentials=creds) *)
  build : Credentials -> Z -> N * outcome unit;
  (* messages().send(userId, body).execute() *)
  execute : Credentials -> string -> mime_message -> Z -> N * send_reply
}.

(** The relay's world: the shared [oauth_manager], and the messages the
    provider has accepted. *)
Record MailWorld : Type := mkMailWorld {
  manager : World;
  outbox : list (Credentials * mime_message)
}.

(** ** The monad of the relay *)

Definition Task (A : Type) : Type := MailWorld -> result A * MailWorld.

Definition ret {A} (a : A) : Task A := fun mw => (Ok a, mw).

Definition raise {A} (r : raised) : Task A := fun mw => (Err r, mw).

Definition bind {A B} (m : Task A) (k : A -> Task B) : Task B :=
  fun mw =>
    match m mw with
    | (Ok a, mw') => k a mw'
    | (Err r, mw') => (Err r, mw')
    end.

Definition get : Task MailWorld := fun mw => (Ok mw, mw).

Definition lift {A} (r : result A) : Task A := fun mw => (r, mw).

(** [try: m except Exception as e: h e]. *)
Definition try_except_Exception {A} (m : Task A) (h : raised -> Task A)
  : Task A :=
  fun mw =>
    match m mw with
    | (Err r, mw') => h r mw'
    | ok => ok
    end.

(** [try: m except HttpError as error: h error]. *)
Definition try_except_HttpError {A} (m : Task A) (h : string -> Task A)
  : Task A :=
  fun mw =>
    match m mw with
    | (Err (HttpError msg), mw') => h msg mw'
    | other => other
    end.

(** A method of [oauth_manager], run on the manager of the relay. *)
Definition on_manager {A} (m : M A) : Task A :=
  fun mw =>
    match m (manager mw) with
    | (Return a, w') => (Ok a, {| manager := w'; outbox := outbox mw |})
    | (Raise e, w') => (Err (Base e), {| manager := w'; outbox := outbox mw |})
    end.

Definition elapse (d : N) : Task unit :=
  fun mw => (Ok tt, {| manager := later d (manager mw); outbox := outbox mw |}).

Definition deliver (creds : Credentials) (msg : mime_message) : Task unit :=
  fun mw => (Ok tt, {| manager := manager mw;
                       outbox := (outbox mw ++ [(creds, msg)])%list |}).

Declare Scope mail_scope.
Delimit Scope mail_scope with mail.
Notation "x <- m ;; k" := (bind m (fun x => k))
  (at level 61, m at next level, right associativity) : mail_scope.
Notation "m ;; k" := (bind m (fun _ => k))
  (at level 61, right associativity) : mail_scope.
Local Open Scope mail_scope.

Section Relay.

Variable env : Env.
Variable svc : Services.

(** ** [create_message_with_attachments] *)

(** The MIME object for a file of the given main type and subtype. *)
Definition mime_class_of (main_type sub_type : string) : mime_class :=
  if (main_type =? "text")%string then MIMEText
  else if (main_type =? "image")%string then MIMEImage sub_type
  else if (main_type =? "audio")%string then MIMEAudio sub_type
  else MIMEBase main_type sub_type.

(** One turn of the loop over [file_paths]. *)
Definition attachment (file_path : string) : result mime_part :=
  let content_type :=
    match guess_type svc file_path with
    | (Some t, None) => t
    | _ => "application/octet-stream"
    end in
  match split_once content_type with
  | None =>
      Err (Base (Exn ValueError
                     "not enough values to unpack (expected 2, got 1)"))
  | Some (main_type, sub_type) =>
      match read_file svc file_path with
      | Raise e => Err (Base e)
      | Return data =>
          Ok {| part_class := mime_class_of main_type sub_type;
                part_payload := data;
                part_filename := Some (basename file_path) |}
      end
  end.

(** The loop: the parts are attached in the order of the paths, and the
    first exception ends it. *)
Fixpoint attach_all (file_paths : list string) : result (list mime_part) :=
  match file_paths with
  | [] => Ok []
  | file_path :: rest =>
      match attachment file_path with
      | Err r => Err r
      | Ok part =>
          match attach_all rest with
          | Err r => Err r
          | Ok more => Ok (part :: more)
          end
      end
  end.

Definition create_message_with_attachments (now : Z)
    (sender to subject message_text : string) (file_paths : list string)
  : result mime_message :=
  match attach_all file_paths with
  | Err r => Err r
  | Ok attached =>
      Ok {| header_to := to; header_from := sender;
            header_subject := subject; header_date := now;
            parts := {| part_class := MIMEText;
                        part_payload := message_text;
                        part_filename := None |} :: attached |}
  end.

(** ** [send_message] *)

(** [service.users().messages().send(userId=user_id, body=message).execute()]:
    the response (its ['id'], if it has one), or an exception. *)
Definition users_messages_send (creds : Credentials) (user_id : string)
    (msg : mime_message) : Task (option string) :=
  mw <- get ;;
  let reply := execute svc creds user_id msg (clock (manager mw)) in
  elapse (fst reply) ;;
  match snd reply with
  | Accepted id => deliver creds msg ;; ret id
  | Rejected text => raise (HttpError text)
  | Failed e => raise (Base e)
  end.

(** [sent_message["id"]]. *)
Definition getitem_id (sent_message : option string) : result string :=
  match sent_message with
  | Some id => Ok id
  | None => Err (Base (Exn KeyError "'id'"))
  end.

(** [send_message]: the response, or [None] after an [HttpError]. *)
Definition send_message (creds : Credentials) (user_id : string)
    (msg : mime_message) : Task (option (option string)) :=
  try_except_HttpError
    (sent_message <- users_messages_send creds user_id msg ;;
     lift (getitem_id sent_message) ;;
     ret (Some sent_message))
    (fun _ => ret None).

(** ** [send_email_task] *)

(** The loop that prepares [file_paths]. *)
Fixpoint existing_files (names : list string) : list string :=
  match names with
  | [] => []
  | attachment_name :: rest =>
      let file_path := path_join "attachments" attachment_name in
      if isfile svc file_path then file_path :: existing_files rest
      else existing_files rest
  end.

(** [for attachment_name in recipient.attachments]. *)
Definition iter (names : option (list string)) : result (list string) :=
  match names with
  | Some l => Ok l
  | None => Err (TypeError "'NoneType' object is not iterable")
  end.

Definition send_email_task (recipient : Recipient) : Task bool :=
  try_except_Exception
    (creds <- on_manager (get_credentials env) ;;
     mw <- get ;;
     let service := build svc creds (clock (manager mw)) in
     elapse (fst service) ;;
     lift (match snd service with
           | Return _ => Ok tt
           | Raise e => Err (Base e)
           end) ;;
     names <- lift (iter (attachments recipient)) ;;
     let file_paths := existing_files names in
     mw <- get ;;
     msg <- lift (create_message_with_attachments (clock (manager mw))
                    "me" (email recipient) (subject recipient)
                    (body recipient) file_paths) ;;
     send_message creds "me" msg ;;
     ret true)
    (fun _ => ret false).

(** ** [auth_status] *)

(** The JSON answer of [/auth/status].  The answer "No valid credentials
    found" is given when [get_credentials] returns a falsy object, which a
    [Credentials] object is not. *)
Inductive status_response : Type :=
| Authenticated (token_expiry : option Z) (granted : list string)
| NotAuthenticated (error : exn).

Definition auth_status : World -> status_response * World :=
  fun w =>
    match get_credentials env w with
    | (Return creds, w') => (Authenticated (expiry creds) (scopes creds), w')
    | (Raise e, w') => (NotAuthenticated e, w')
    end.

End Relay.

End Mail.

(** * Sample worlds and providers *)

Module Sample.

Definition stale : Credentials :=
  {| token := Some "ya29.old"; refresh_token := Some "1//refresh";
     expiry := Some 900; scopes := SCOPES |}.

Definition live : Credentials :=
  {| token := Some "ya29.live"; refresh_token := Some "1//refresh";
     expiry := Some 4600; scopes := SCOPES |}.

Definition granted : Credentials :=
  {| token := Some "ya29.granted"; refresh_token := Some "1//granted";
     expiry := Some 9000; scopes := SCOPES |}.

Definition unexpiring : Credentials :=
  {| token := Some "ya29.forever"; refresh_token := None;
     expiry := None; scopes := SCOPES |}.

(** A toy serialisation, enough to tell the sample credentials apart. *)
Definition parse (text : string) (now : Z) : outcome Credentials :=
  if (text =? "stale")%string then Return stale
  else if (text =? "live")%string then Return live
  else if (text =? "granted")%string then Return granted
  else if (text =? "unexpiring")%string then Return unexpiring
  else Raise (Exn ValueError "Expecting value: line 1 column 1 (char 0)").

Definition print (c : Credentials) : string :=
  match token c with
  | Some "ya29.old" => "stale"
  | Some "ya29.live" => "live"
  | Some "ya29.granted" => "granted"
  | Some "ya29.forever" => "unexpiring"
  | _ => "{}"
  end.

(** The provider answers every call: a refresh gives a token good for an
    hour, and the consent screen is accepted. *)
Definition online : Env :=
  {| from_authorized_user_info := parse;
     to_json := print;
     refresh := fun _ now => (1%N, Return ("ya29.live", Some (now + 3600)));
     run_local_server := fun now =>
       (30%N, Return {| token := Some "ya29.granted";
                        refresh_token := Some "1//granted";
                        expiry := Some (now + 3630); scopes := SCOPES |}) |}.

(** The network is down: the refresh raises a transport error (not a
    [RefreshError]); the consent screen, served locally, still works. *)
Definition offline : Env :=
  {| from_authorized_user_info := parse;
     to_json := print;
     refresh := fun _ _ =>
       (5%N, Raise (Exn TransportError "HTTPSConnectionPool: Max retries exceeded"));
     run_local_server := run_local_server online |}.

(** The provider rejects the refresh token and the user closes the consent
    screen. *)
Definition rejecting : Env :=
  {| from_authorized_user_info := parse;
     to_json := print;
     refresh := fun _ _ =>
       (1%N, Raise (Exn RefreshError "invalid_grant: Token has been expired or revoked."));
     run_local_server := fun _ =>
       (60%N, Raise (Exn OSError "[Errno 98] Address already in use")) |}.

(** An access token granted without a refresh token (the provider hands
    one out only at the first consent). *)
Definition bearer : Credentials :=
  {| token := Some "ya29.bearer"; refresh_token := None;
     expiry := Some 4600; scopes := SCOPES |}.

(** The SDK's serialisation on a credential without refresh token:
    [to_json] leaves out the fields that are [None], and
    [from_authorized_user_info] raises [ValueError] on a record that has no
    [refresh_token]. *)
Definition bearer_text : string :=
  "{'token': 'ya29.bearer', 'scopes': ['https://www.googleapis.com/auth/gmail.send'], 'expiry': '1970-01-01T01:16:40Z'}".

Definition sdk : Env :=
  {| from_authorized_user_info := fun text now =>
       if (text =? bearer_text)%string
       then Raise (Exn ValueError
                     "Authorized user info was not in the expected format, missing fields refresh_token.")
       else parse text now;
     to_json := fun c =>
       match refresh_token c with
       | None => bearer_text
       | Some _ => print c
       end;
     refresh := refresh online;
     run_local_server := run_local_server online |}.

(** A fresh manager at time 1000 with the given token file. *)
Definition started (f : option file) : World :=
  {| credentials := None; token_file := f; clock := 1000; log := [];
     writable := true |}.

(** The same world, where the token file may not be opened for writing. *)
Definition sealed (w : World) : World :=
  {| credentials := credentials w; token_file := token_file w;
     clock := clock w; log := log w; writable := false |}.

Definition holding (c : Credentials) (f : option file) : World :=
  with_credentials (Some c) (started f).

Definition stored (text : string) : option file :=
  Some {| readable := true; content := text |}.


End Sample.

Module MailSample.

Import Mail.

(** The files on the disk of the relay. *)
Definition disk : list (string * string) :=
  [("attachments/notes.txt", "minutes of the meeting");
   ("attachments/report.pdf", "%PDF-1.7");
   ("/etc/hostname", "relay01")].

Fixpoint lookup (path : string) (files : list (string * string))
  : option string :=
  match files with
  | [] => None
  | (p, data) :: rest => if (p =? path)%string then Some data else lookup path rest
  end.

Definition types (path : string) : option string * option string :=
  if (path =? "attachments/notes.txt")%string then (Some "text/plain", None)
  else if (path =? "attachments/report.pdf")%string
       then (Some "application/pdf", None)
       else (None, None).

(** The provider accepts every message. *)
Definition accepting : Services :=
  {| guess_type := types;
     isfile := fun path => match lookup path disk with
                           | Some _ => true
                           | None => false
                           end;
     read_file := fun path =>
       match lookup path disk with
       | Some data => Return data
       | None => Raise (Exn OSError "[Errno 2] No such file or directory")
       end;
     build := fun _ _ => (0%N, Return tt);
     execute := fun _ _ _ _ => (2%N, Accepted (Some "18c2f0a1")) |}.

(** The provider rejects every message (quota exceeded). *)
Definition refusing : Services :=
  {| guess_type := types;
     isfile := isfile accepting;
     read_file := read_file accepting;
     build := build accepting;
     execute := fun _ _ _ _ =>
       (2%N, Rejected "HttpError 429: User-rate limit exceeded") |}.

Definition to_alice : Recipient :=
  {| email := "alice@example.org"; subject := "Minutes";
     body := "Please find the minutes attached.";
     attachments := Some ["notes.txt"; "agenda.txt"] |}.

Definition relay (w : World) : MailWorld :=
  {| manager := w; outbox := [] |}.

End MailSample.

(** * Properties *)

Ltac unfold_monad :=
  unfold call, emit, sleep, lift, set_credentials, set_token_file,
    try_except, try_except_Exception, bind, ret, raise, get in *.

(** ** The updaters *)

Lemma with_credentials_same w :
  with_credentials (credentials w) w = w.
Proof. destruct w; reflexivity. Qed.


(** ** Validity *)

Lemma valid_not_expired c now :
  valid c now = true -> expired c now = false.
Proof.
  unfold valid. intros H. apply andb_true_iff in H as [_ H].
  now apply negb_true_iff in H.
Qed.

Lemma valid_without_expiry c now :
  truthy (token c) = true -> expiry c = None -> valid c now = true.
Proof.
  intros Htok Hexp. unfold valid, expired. now rewrite Htok, Hexp.
Qed.


(** The five-minute buffer is computed by a helper that [get_credentials]
    never calls; unlike the validity check, it counts a credential without
    expiry as expiring. *)
Lemma _is_token_expired_or_expiring_soon_without_expiry w c :
  credentials w = Some c -> expiry c = None ->
  _is_token_expired_or_expiring_soon w = true.
Proof.
  intros Hc He. unfold _is_token_expired_or_expiring_soon.
  now rewrite Hc, He.
Qed.

Section Loading.

Variable env : Env.

(** ** Reading the token file *)

Lemma load_token_file_absent w :
  token_file w = None -> load_token_file env w = (Return tt, w).
Proof.
  intros H. unfold load_token_file. unfold_monad. now rewrite H.
Qed.

Lemma load_token_file_present w f :
  token_file w = Some f ->
  load_token_file env w =
  match read_token_file env f (clock w) with
  | Return c => (Return tt, with_credentials (Some c) w)
  | Raise e =>
      if isinstance e [ValueError; KeyError]
      then (Return tt, with_credentials None w)
      else (Raise e, w)
  end.
Proof.
  intros H. unfold load_token_file. unfold_monad. rewrite H.
  destruct (read_token_file env f (clock w)) as [c|e]; reflexivity.
Qed.

(** Reading touches neither the file, nor the clock, nor the log. *)
Lemma load_token_file_frame w r w' :
  load_token_file env w = (r, w') ->
  token_file w' = token_file w /\ clock w' = clock w /\ log w' = log w.
Proof.
  destruct (token_file w) as [f|] eqn:Hf.
  - rewrite (load_token_file_present w f Hf).
    destruct (read_token_file env f (clock w)) as [c|e].
    + intros [= _ <-]. simpl. now rewrite Hf.
    + destruct (isinstance e [ValueError; KeyError]); intros [= _ <-];
        simpl; now rewrite ?Hf.
  - rewrite (load_token_file_absent w Hf). intros [= _ <-]. now rewrite Hf.
Qed.

Lemma load_token_file_writable w r w' :
  load_token_file env w = (r, w') -> writable w' = writable w.
Proof.
  destruct (token_file w) as [f|] eqn:Hf.
  - rewrite (load_token_file_present w f Hf).
    destruct (read_token_file env f (clock w)) as [c|e].
    + now intros [= _ <-].
    + destruct (isinstance e [ValueError; KeyError]); now intros [= _ <-].
  - rewrite (load_token_file_absent w Hf). now intros [= _ <-].
Qed.

(** Once the file has been read, [get_credentials] is its lines 32-37. *)
Lemma get_credentials_after_load w w1 :
  load_token_file env w = (Return tt, w1) ->
  get_credentials env w = use_or_renew env w1.
Proof.
  intros H. unfold get_credentials, bind. now rewrite H.
Qed.

Lemma get_credentials_load_raises w e w1 :
  load_token_file env w = (Raise e, w1) ->
  get_credentials env w = (Raise e, w1).
Proof.
  intros H. unfold get_credentials, bind. now rewrite H.
Qed.

End Loading.

Section Saving.

Variable env : Env.

(** ** Saving *)

(** [_save_credentials] writes exactly when the held credential is valid,
    and raises when that write is not permitted. *)
Lemma _save_credentials_explicit w :
  _save_credentials env w =
  match credentials w with
  | Some c =>
      if valid c (clock w) then
        if writable w then (Return tt, written (to_json env c) w)
        else (Raise permission_denied, w)
      else (Return tt, w)
  | None => (Return tt, w)
  end.
Proof.
  unfold _save_credentials, write_token_file. unfold_monad.
  destruct (credentials w) as [c|]; [|reflexivity].
  destruct (valid c (clock w)); [|reflexivity].
  destruct (writable w) eqn:Hw; rewrite ?Hw; reflexivity.
Qed.

Lemma _save_credentials_valid w c :
  credentials w = Some c -> valid c (clock w) = true ->
  writable w = true ->
  _save_credentials env w = (Return tt, written (to_json env c) w).
Proof.
  intros Hc Hv Hw. now rewrite _save_credentials_explicit, Hc, Hv, Hw.
Qed.

Lemma _save_credentials_skip w :
  has_valid_credentials w = false ->
  _save_credentials env w = (Return tt, w).
Proof.
  unfold has_valid_credentials. rewrite _save_credentials_explicit.
  destruct (credentials w) as [c|]; [|reflexivity].
  now intros ->.
Qed.

End Saving.

(** ** Revocation *)

Section Revocation.

Variable env : Env.

(** C8: when no valid credential is held, [revoke_token] answers [False]
    and changes nothing: the token file is neither written nor removed, the
    credential in memory is the same, and no call is made. *)
Theorem revoke_token_without_valid_credential w :
  has_valid_credentials w = false ->
  revoke_token env w = (Return false, w).
Proof.
  intros H. unfold revoke_token. unfold_monad. now rewrite H.
Qed.

(** The run of [revoke_token] on a valid credential, step by step: the
    refresh, then the lookup of [request.post], which raises. *)
Lemma revoke_token_valid w c :
  credentials w = Some c -> valid c (clock w) = true ->
  revoke_token env w =
  let w1 := later (fst (refresh env c (clock w))) (logged (EvRefresh c) w) in
  match snd (refresh env c (clock w)) with
  | Raise _ => (Return false, w1)
  | Return (access, exp) =>
      (Return false, with_credentials (Some (refreshed c access exp)) w1)
  end.
Proof.
  intros Hc Hv. unfold revoke_token, has_valid_credentials.
  unfold_monad. rewrite Hc, Hv.
  unfold refresh_in_place, request_post. unfold_monad. rewrite Hc.
  destruct (refresh env c (clock w)) as [d [[access exp]|e]]; reflexivity.
Qed.

(** C10, at the code: on a valid credential [revoke_token] first refreshes
    it, and when the refresh succeeds the held credential carries the new
    access token; when the refresh raises, the answer is [False] and the
    revoke endpoint is not called.  But the token is never submitted: the
    refresh is the only call of the run, whose answer is [False] in every
    case, with the token file left as it was. *)
Theorem revoke_token_refreshes_first w c :
  credentials w = Some c -> valid c (clock w) = true ->
  exists w',
    revoke_token env w = (Return false, w') /\
    log w' = (log w ++ [EvRefresh c])%list /\
    token_file w' = token_file w /\
    match refresh env c (clock w) with
    | (d, Raise _) => w' = later d (logged (EvRefresh c) w)
    | (d, Return (access, exp)) =>
        credentials w' = Some (refreshed c access exp) /\
        token (refreshed c access exp) = Some access
    end.
Proof.
  intros Hc Hv. rewrite (revoke_token_valid w c Hc Hv). cbv zeta.
  destruct (refresh env c (clock w)) as [d [[access exp]|e]]; cbn [fst snd];
    eexists; (split; [reflexivity|]); repeat split.
Qed.

(** C4, at the code: [revoke_token] never raises, but it never revokes
    either: whatever the provider would answer, it returns [False], leaves
    the token file as it was, and makes no call other than, at most, one
    refresh. *)
Theorem revoke_token_outcome w :
  exists w',
    revoke_token env w = (Return false, w') /\
    token_file w' = token_file w /\
    (log w' = log w \/ exists c, log w' = (log w ++ [EvRefresh c])%list).
Proof.
  destruct (has_valid_credentials w) eqn:Hv.
  - unfold has_valid_credentials in Hv.
    destruct (credentials w) as [c|] eqn:Hc; [|discriminate].
    rewrite (revoke_token_valid w c Hc Hv). cbv zeta.
    destruct (refresh env c (clock w)) as [d [[access exp]|e]]; cbn [fst snd];
      eexists; (split; [reflexivity|]); (split; [reflexivity|]);
      right; now exists c.
  - unfold revoke_token. unfold_monad. rewrite Hv.
    exists w. split; [reflexivity|]. split; [reflexivity | now left].
Qed.

End Revocation.

(** ** Renewal: the interactive flow and the refresh *)

Section Renewal.

Variable env : Env.

(** The run of [_run_oauth_flow], step by step. *)
Lemma _run_oauth_flow_explicit w :
  _run_oauth_flow env w =
  let w1 := later (fst (run_local_server env (clock w))) (logged EvAuthorize w) in
  match snd (run_local_server env (clock w)) with
  | Return c =>
      let w2 := with_credentials (Some c) w1 in
      if valid c (clock w1) then
        if writable w then (Return c, written (to_json env c) w2)
        else (Raise (authentication_failed (str permission_denied)), w2)
      else (Return c, w2)
  | Raise e => (Raise (authentication_failed (str e)), w1)
  end.
Proof.
  unfold _run_oauth_flow. unfold_monad.
  destruct (run_local_server env (clock w)) as [d [c|e]]; cbn [fst snd];
    [|reflexivity].
  rewrite _save_credentials_explicit.
  cbn [credentials with_credentials clock later logged writable].
  destruct (valid c (clock w + Z.of_N d)); [|reflexivity].
  destruct (writable w); reflexivity.
Qed.

(** The run of [_refresh_token], step by step. *)
Lemma _refresh_token_explicit w c :
  credentials w = Some c ->
  _refresh_token env w =
  let w1 := later (fst (refresh env c (clock w))) (logged (EvRefresh c) w) in
  match snd (refresh env c (clock w)) with
  | Return (access, exp) =>
      let c' := refreshed c access exp in
      let w2 := with_credentials (Some c') w1 in
      if valid c' (clock w1) then
        if writable w then (Return c', written (to_json env c') w2)
        else (Raise permission_denied, w2)
      else (Return c', w2)
  | Raise e =>
      if isinstance e [RefreshError] then _run_oauth_flow env w1
      else (Raise e, w1)
  end.
Proof.
  intros Hc. unfold _refresh_token, refresh_in_place. unfold_monad.
  rewrite Hc.
  destruct (refresh env c (clock w)) as [d [[access exp]|e]]; cbn [fst snd];
    [|reflexivity].
  rewrite _save_credentials_explicit.
  cbn [credentials with_credentials clock later logged writable].
  destruct (valid (refreshed c access exp) (clock w + Z.of_N d));
    [|reflexivity].
  destruct (writable w); reflexivity.
Qed.

(** The interactive flow makes one authorization call, possibly followed
    by one write, and never a refresh. *)
Lemma _run_oauth_flow_log w :
  exists rest,
    log (snd (_run_oauth_flow env w)) = (log w ++ EvAuthorize :: rest)%list /\
    forall c, ~ In (EvRefresh c) rest.
Proof.
  rewrite _run_oauth_flow_explicit. cbv zeta.
  destruct (run_local_server env (clock w)) as [d [c|e]]; cbn [fst snd].
  - destruct (valid c _); [destruct (writable w)|].
    + exists [EvWrite (to_json env c)]. split.
      * simpl. now rewrite <- app_assoc.
      * intros c' [Hin | []]. discriminate.
    + exists []. split; [reflexivity | intros c' []].
    + exists []. split; [reflexivity | intros c' []].
  - exists []. split; [reflexivity | intros c' []].
Qed.

(** Whatever the interactive flow raises is an authentication failure
    built from a cause. *)
Lemma _run_oauth_flow_raises w e :
  fst (_run_oauth_flow env w) = Raise e ->
  exists cause, e = authentication_failed (str cause).
Proof.
  rewrite _run_oauth_flow_explicit. cbv zeta.
  destruct (run_local_server env (clock w)) as [d [c|cause]]; cbn [fst snd].
  - destruct (valid c _); [destruct (writable w)|]; cbn [fst];
      try discriminate.
    intros [= <-]. now exists permission_denied.
  - intros [= <-]. now exists cause.
Qed.

(** Lines 32-37 by cases. *)
Lemma use_or_renew_valid w c :
  credentials w = Some c -> valid c (clock w) = true ->
  use_or_renew env w = (Return c, w).
Proof.
  intros Hc Hv. unfold use_or_renew. unfold_monad. now rewrite Hc, Hv.
Qed.

Lemma use_or_renew_none w :
  credentials w = None -> use_or_renew env w = _run_oauth_flow env w.
Proof.
  intros Hc. unfold use_or_renew. unfold_monad. now rewrite Hc.
Qed.

Lemma use_or_renew_expired w c :
  credentials w = Some c -> expired c (clock w) = true ->
  use_or_renew env w =
  if truthy (refresh_token c) then _refresh_token env w
  else _run_oauth_flow env w.
Proof.
  intros Hc He. unfold use_or_renew. unfold_monad. rewrite Hc.
  unfold valid. rewrite He, andb_false_r. simpl.
  now destruct (truthy (refresh_token c)).
Qed.

Lemma use_or_renew_invalid w c :
  credentials w = Some c -> valid c (clock w) = false ->
  use_or_renew env w =
  if expired c (clock w) && truthy (refresh_token c)
  then _refresh_token env w
  else _run_oauth_flow env w.
Proof.
  intros Hc Hv. unfold use_or_renew. unfold_monad. rewrite Hc, Hv.
  simpl. now destruct (expired c (clock w) && truthy (refresh_token c)).
Qed.

Lemma use_or_renew_invalid_unexpired w c :
  credentials w = Some c -> valid c (clock w) = false ->
  expired c (clock w) = false ->
  use_or_renew env w = _run_oauth_flow env w.
Proof.
  intros Hc Hv He. now rewrite (use_or_renew_invalid w c Hc Hv), He.
Qed.

End Renewal.

(** ** [get_credentials] *)

Section Lifecycle.

Variable env : Env.

(** C2: for a credential whose expiry is in the past, [get_credentials]
    calls the refresh first when a refresh token is present (any
    authorization comes after it), and goes straight to the interactive
    flow, with no refresh at all, when there is none. *)
Theorem expired_credential_renewal w w1 c :
  load_token_file env w = (Return tt, w1) ->
  credentials w1 = Some c ->
  expired c (clock w1) = true ->
  if truthy (refresh_token c) then
    get_credentials env w = _refresh_token env w1 /\
    exists rest,
      log (snd (get_credentials env w)) = (log w ++ EvRefresh c :: rest)%list
  else
    get_credentials env w = _run_oauth_flow env w1 /\
    exists rest,
      log (snd (get_credentials env w)) = (log w ++ EvAuthorize :: rest)%list /\
      forall c', ~ In (EvRefresh c') rest.
Proof.
  intros Hl Hc He.
  destruct (load_token_file_frame env w _ w1 Hl) as (_ & _ & Hlog).
  rewrite (get_credentials_after_load env w w1 Hl).
  rewrite (use_or_renew_expired env w1 c Hc He).
  destruct (truthy (refresh_token c)).
  - split; [reflexivity|].
    rewrite (_refresh_token_explicit env w1 c Hc). rewrite <- Hlog.
    cbv zeta.
    destruct (refresh env c (clock w1)) as [d [[access exp]|e]];
      cbn [fst snd].
    + destruct (valid _ _); [destruct (writable w1)|]; cbn [snd].
      * eexists [EvWrite _]. simpl. now rewrite <- app_assoc.
      * now exists [].
      * now exists [].
    + destruct (isinstance e [RefreshError]).
      * destruct (_run_oauth_flow_log env (later d (logged (EvRefresh c) w1)))
          as (rest & H & _).
        rewrite H. simpl. exists (EvAuthorize :: rest).
        now rewrite <- app_assoc.
      * simpl. now exists [].
  - split; [reflexivity|]. rewrite <- Hlog.
    apply _run_oauth_flow_log.
Qed.

(** C3, as the code has it: when the refresh of an expired credential is
    rejected with a [RefreshError], [get_credentials] runs the interactive
    flow and the refresh error does not reach the caller.  When the
    refresh succeeds, the refreshed credential is held in memory; it is
    written to the token file only if it is valid at that time, and it is
    returned unless that write is refused, in which case the error of the
    write reaches the caller. *)
Theorem refresh_outcome_handling w w1 c :
  load_token_file env w = (Return tt, w1) ->
  credentials w1 = Some c ->
  expired c (clock w1) = true ->
  truthy (refresh_token c) = true ->
  match refresh env c (clock w1) with
  | (d, Raise e) =>
      class_of e = RefreshError ->
      get_credentials env w =
        _run_oauth_flow env (later d (logged (EvRefresh c) w1)) /\
      In EvAuthorize (log (snd (get_credentials env w))) /\
      forall e', fst (get_credentials env w) = Raise e' ->
                 class_of e' = HTTPException 500
  | (d, Return (access, exp)) =>
      let c' := refreshed c access exp in
      let w2 := with_credentials (Some c')
                  (later d (logged (EvRefresh c) w1)) in
      if valid c' (clock w2) then
        if writable w
        then get_credentials env w = (Return c', written (to_json env c') w2)
        else get_credentials env w = (Raise permission_denied, w2)
      else get_credentials env w = (Return c', w2)
  end.
Proof.
  intros Hl Hc He Hrt.
  assert (Hw : writable w1 = writable w) by exact (load_token_file_writable env w _ w1 Hl).
  rewrite (get_credentials_after_load env w w1 Hl).
  rewrite (use_or_renew_expired env w1 c Hc He), Hrt.
  rewrite (_refresh_token_explicit env w1 c Hc). cbv zeta.
  destruct (refresh env c (clock w1)) as [d [[access exp]|e]];
    cbn [fst snd].
  - cbn [clock with_credentials later logged]. rewrite Hw.
    destruct (valid _ _); [destruct (writable w)|]; reflexivity.
  - intros Hcls. unfold isinstance. rewrite Hcls. simpl.
    split; [reflexivity|]. split.
    + destruct (_run_oauth_flow_log env (later d (logged (EvRefresh c) w1)))
        as (rest & H & _).
      rewrite H. apply in_or_app. right. now left.
    + intros e' He'.
      destruct (_run_oauth_flow_raises env _ e' He') as (cause & ->).
      reflexivity.
Qed.


(** C6: a credential with a non-empty access token and no recorded expiry
    is valid at every time, and [get_credentials] returns it as it is: no
    refresh, no authorization, no write. *)
Theorem unexpiring_credential_is_returned w w1 c :
  load_token_file env w = (Return tt, w1) ->
  credentials w1 = Some c ->
  truthy (token c) = true ->
  expiry c = None ->
  (forall now, valid c now = true) /\
  get_credentials env w = (Return c, w1) /\
  log w1 = log w /\ token_file w1 = token_file w.
Proof.
  intros Hl Hc Ht He.
  destruct (load_token_file_frame env w _ w1 Hl) as (Hf & _ & Hlog).
  split; [intros now; now apply valid_without_expiry|].
  split; [|now split].
  rewrite (get_credentials_after_load env w w1 Hl).
  apply use_or_renew_valid; [assumption|].
  now apply valid_without_expiry.
Qed.

End Lifecycle.

(** ** The token file and the credential in memory *)

Section Store.

Variable env : Env.



(** C7, as the code has it: a valid credential saved with
    [_save_credentials] reaches the token file as the SDK's text of it, and
    loading from the file so written gives exactly what the SDK's parser
    makes of that text: the credential it returns (with the saved fields
    exactly when the parser gives them back), no credential when it
    rejects the text with a [ValueError] or a [KeyError], and otherwise
    its exception. *)
Theorem save_then_load_round_trip w c w2 :
  credentials w = Some c ->
  valid c (clock w) = true ->
  writable w = true ->
  (forall f, token_file w = Some f -> readable f = true) ->
  token_file w2 = token_file (snd (_save_credentials env w)) ->
  (exists f, token_file (snd (_save_credentials env w)) = Some f /\
             content f = to_json env c) /\
  load_token_file env w2 =
  match from_authorized_user_info env (to_json env c) (clock w2) with
  | Return d => (Return tt, with_credentials (Some d) w2)
  | Raise e =>
      if isinstance e [ValueError; KeyError]
      then (Return tt, with_credentials None w2)
      else (Raise e, w2)
  end.
Proof.
  intros Hc Hv Hw Hread Hfile.
  rewrite (_save_credentials_valid env w c Hc Hv Hw) in *.
  unfold written in *. cbn [snd token_file with_token_file] in *.
  assert (Hl : load_token_file env w2 =
               match from_authorized_user_info env (to_json env c) (clock w2) with
               | Return d => (Return tt, with_credentials (Some d) w2)
               | Raise e =>
                   if isinstance e [ValueError; KeyError]
                   then (Return tt, with_credentials None w2)
                   else (Raise e, w2)
               end).
  { rewrite (load_token_file_present env w2 _ Hfile).
    unfold read_token_file. cbn [readable content].
    assert (Hr : match token_file w with
                 | Some f => readable f
                 | None => true
                 end = true).
    { destruct (token_file w) as [f|]; [now apply Hread | reflexivity]. }
    now rewrite Hr. }
  split; [eexists; split; reflexivity | exact Hl].
Qed.

End Store.

(** ** One run of [get_credentials], call by call *)

Section Effects.

Variable env : Env.

Ltac kept := left; split; [reflexivity | intros text H'; simpl in H'; intuition discriminate].

Ltac renewed c :=
  right; exists c; split; [reflexivity|]; split; [assumption|];
  split; [reflexivity|];
  intros text H'; simpl in H'; intuition congruence.

Lemma _run_oauth_flow_effects w :
  exists evs,
    (evs = [EvAuthorize] \/ exists text, evs = [EvAuthorize; EvWrite text]) /\
    renewal_effects env w evs (_run_oauth_flow env w).
Proof.
  rewrite _run_oauth_flow_explicit. cbv zeta.
  destruct (run_local_server env (clock w)) as [d [c|e]]; cbn [fst snd].
  - destruct (valid c (clock (later d (logged EvAuthorize w)))) eqn:Hv;
      [destruct (writable w)|].
    + exists [EvAuthorize; EvWrite (to_json env c)].
      split; [right; now eexists|]. unfold renewal_effects. cbn [fst snd].
      split; [simpl; now rewrite <- app_assoc|]. split; [reflexivity|].
      unfold file_kept_or_renewed. cbn [fst snd]. renewed c.
    + exists [EvAuthorize]. split; [now left|].
      unfold renewal_effects. cbn [fst snd].
      split; [reflexivity|]. split; [exact I|].
      unfold file_kept_or_renewed. cbn [fst snd]. kept.
    + exists [EvAuthorize]. split; [now left|].
      unfold renewal_effects. cbn [fst snd].
      split; [reflexivity|]. split; [reflexivity|].
      unfold file_kept_or_renewed. cbn [fst snd]. kept.
  - exists [EvAuthorize]. split; [now left|].
    unfold renewal_effects. cbn [fst snd].
    split; [reflexivity|]. split; [exact I|].
    unfold file_kept_or_renewed. cbn [fst snd]. kept.
Qed.

Lemma _refresh_token_effects w c :
  credentials w = Some c ->
  exists evs,
    (evs = [EvRefresh c] \/
     (exists text, evs = [EvRefresh c; EvWrite text]) \/
     evs = [EvRefresh c; EvAuthorize] \/
     (exists text, evs = [EvRefresh c; EvAuthorize; EvWrite text])) /\
    renewal_effects env w evs (_refresh_token env w).
Proof.
  intros Hc. rewrite (_refresh_token_explicit env w c Hc). cbv zeta.
  destruct (refresh env c (clock w)) as [d [[access exp]|e]]; cbn [fst snd].
  - set (c' := refreshed c access exp).
    destruct (valid c' (clock (later d (logged (EvRefresh c) w)))) eqn:Hv;
      [destruct (writable w)|].
    + exists [EvRefresh c; EvWrite (to_json env c')].
      split; [right; left; now eexists|]. unfold renewal_effects.
      cbn [fst snd].
      split; [simpl; now rewrite <- app_assoc|]. split; [reflexivity|].
      unfold file_kept_or_renewed. cbn [fst snd]. renewed c'.
    + exists [EvRefresh c]. split; [now left|].
      unfold renewal_effects. cbn [fst snd].
      split; [reflexivity|]. split; [exact I|].
      unfold file_kept_or_renewed. cbn [fst snd]. kept.
    + exists [EvRefresh c]. split; [now left|].
      unfold renewal_effects. cbn [fst snd].
      split; [reflexivity|]. split; [reflexivity|].
      unfold file_kept_or_renewed. cbn [fst snd]. kept.
  - destruct (isinstance e [RefreshError]).
    + set (w1 := later d (logged (EvRefresh c) w)).
      destruct (_run_oauth_flow_effects w1) as (evs & Hshape & Hlog & Hmem & Hfile).
      exists (EvRefresh c :: evs). split.
      * destruct Hshape as [-> | [text ->]];
          [right; right; now left | right; right; right; now exists text].
      * unfold renewal_effects. split; [|split].
        -- rewrite Hlog. subst w1. simpl. now rewrite <- app_assoc.
        -- exact Hmem.
        -- destruct Hfile as [[Hf Hno] | (c0 & Hr & Hv & Hf & Hw)].
           ++ left. split; [exact Hf|].
              intros text [H' | H']; [discriminate | now apply (Hno text)].
           ++ right. exists c0. split; [exact Hr|]. split; [exact Hv|].
              split; [exact Hf|].
              intros text [H' | H']; [discriminate | now apply Hw].
    + exists [EvRefresh c]. split; [now left|].
      unfold renewal_effects. cbn [fst snd].
      split; [reflexivity|]. split; [exact I|].
      unfold file_kept_or_renewed. cbn [fst snd]. kept.
Qed.

Lemma use_or_renew_effects w :
  exists evs,
    renewal_trace evs /\ renewal_effects env w evs (use_or_renew env w).
Proof.
  assert (Hflow : exists evs,
             renewal_trace evs /\
             renewal_effects env w evs (_run_oauth_flow env w)).
  { destruct (_run_oauth_flow_effects w) as (evs & [-> | [text ->]] & H);
      eexists; (split; [|exact H]); constructor. }
  destruct (credentials w) as [c|] eqn:Hc.
  - destruct (valid c (clock w)) eqn:Hv.
    + rewrite (use_or_renew_valid env w c Hc Hv). exists [].
      split; [constructor|]. unfold renewal_effects. cbn [fst snd].
      split; [now rewrite app_nil_r|]. split; [assumption|].
      unfold file_kept_or_renewed. cbn [fst snd]. kept.
    + destruct (expired c (clock w)) eqn:He.
      * rewrite (use_or_renew_expired env w c Hc He).
        destruct (truthy (refresh_token c)); [|assumption].
        destruct (_refresh_token_effects w c Hc)
          as (evs & [-> | [[text ->] | [-> | [text ->]]]] & H);
          eexists; (split; [|exact H]); constructor.
      * now rewrite (use_or_renew_invalid_unexpired env w c Hc Hv He).
  - now rewrite (use_or_renew_none env w Hc).
Qed.

(** Reading the token file adds nothing to the log and leaves the file as
    it is, so the effects of [get_credentials] are those of its renewal. *)
Lemma get_credentials_effects w :
  exists evs,
    renewal_trace evs /\ renewal_effects env w evs (get_credentials env w).
Proof.
  destruct (load_token_file env w) as [[[]|e] w1] eqn:Hl;
    destruct (load_token_file_frame env w _ w1 Hl) as (Hf & Hc & Hlog).
  - rewrite (get_credentials_after_load env w w1 Hl).
    destruct (use_or_renew_effects w1) as (evs & Ht & Hl' & Hm & Hk).
    exists evs. split; [assumption|]. split; [now rewrite <- Hlog|].
    split; [assumption|].
    unfold file_kept_or_renewed, written in *. now rewrite <- Hf.
  - rewrite (get_credentials_load_raises env w e w1 Hl). exists [].
    split; [constructor|]. unfold renewal_effects. cbn [fst snd].
    split; [now rewrite app_nil_r|]. split; [exact I|].
    left. cbn [snd]. split; [assumption | intros text []].
Qed.

End Effects.

(** ** What [get_credentials] returns and what it raises *)

Section Contract.

Variable env : Env.

Lemma flow_starts_run w w2 :
  flow_starts env w w2 ->
  get_credentials env w = _run_oauth_flow env w2 /\ writable w2 = writable w.
Proof.
  intros [w1 Hl Hc | w1 c Hl Hc Hv Hn | w1 c d e Hl Hc He Ht Hr Hi];
    pose proof (load_token_file_writable env w _ w1 Hl) as Hw;
    rewrite (get_credentials_after_load env w w1 Hl).
  - now rewrite (use_or_renew_none env w1 Hc).
  - now rewrite (use_or_renew_invalid env w1 c Hc Hv), Hn.
  - rewrite (use_or_renew_expired env w1 c Hc He), Ht.
    rewrite (_refresh_token_explicit env w1 c Hc), Hr. cbv zeta.
    cbn [fst snd]. now rewrite Hi.
Qed.

Lemma flow_raises_from w w2 e :
  flow_starts env w w2 ->
  fst (_run_oauth_flow env w2) = Raise e ->
  raises_from env w e.
Proof.
  intros Hs. destruct (flow_starts_run w w2 Hs) as [_ Hw].
  rewrite _run_oauth_flow_explicit. cbv zeta.
  destruct (run_local_server env (clock w2)) as [d [c|cause]] eqn:Hr;
    cbn [fst snd].
  - cbn [clock later logged].
    destruct (valid c (clock w2 + Z.of_N d)) eqn:Hv;
      [destruct (writable w2) eqn:Hw2|]; cbn [fst]; try discriminate.
    intros [= <-].
    apply (raised_by_flow_write env w w2 d c Hs Hr Hv). congruence.
  - intros [= <-]. now apply (raised_by_flow env w w2 d cause).
Qed.

Lemma raises_from_sound w e :
  raises_from env w e -> fst (get_credentials env w) = Raise e.
Proof.
  intros [f e0 Hf Hr Hi
         | w1 c d e0 Hl Hc He Ht Hr Hi
         | w1 c d access exp Hl Hc He Ht Hr Hv Hw
         | w2 d cause Hs Hr
         | w2 d c Hs Hr Hv Hw].
  - pose proof (load_token_file_present env w f Hf) as Hl.
    rewrite Hr, Hi in Hl.
    now rewrite (get_credentials_load_raises env w e0 w Hl).
  - rewrite (get_credentials_after_load env w w1 Hl).
    rewrite (use_or_renew_expired env w1 c Hc He), Ht.
    rewrite (_refresh_token_explicit env w1 c Hc), Hr. cbv zeta.
    cbn [fst snd]. now rewrite Hi.
  - rewrite (get_credentials_after_load env w w1 Hl).
    rewrite (use_or_renew_expired env w1 c Hc He), Ht.
    rewrite (_refresh_token_explicit env w1 c Hc), Hr. cbv zeta.
    cbn [fst snd clock later logged]. rewrite Hv.
    now rewrite (load_token_file_writable env w _ w1 Hl), Hw.
  - destruct (flow_starts_run w w2 Hs) as [-> _].
    rewrite _run_oauth_flow_explicit, Hr. reflexivity.
  - destruct (flow_starts_run w w2 Hs) as [-> Hw2].
    rewrite _run_oauth_flow_explicit, Hr. cbv zeta.
    cbn [fst snd clock later logged]. now rewrite Hv, Hw2, Hw.
Qed.

Lemma raises_from_complete w e :
  fst (get_credentials env w) = Raise e -> raises_from env w e.
Proof.
  destruct (load_token_file env w) as [[[]|e0] w1] eqn:Hl.
  - pose proof (load_token_file_writable env w _ w1 Hl) as Hw.
    rewrite (get_credentials_after_load env w w1 Hl).
    destruct (credentials w1) as [c|] eqn:Hc.
    + destruct (valid c (clock w1)) eqn:Hv.
      * rewrite (use_or_renew_valid env w1 c Hc Hv). discriminate.
      * rewrite (use_or_renew_invalid env w1 c Hc Hv).
        destruct (expired c (clock w1) && truthy (refresh_token c)) eqn:Hn.
        -- apply andb_true_iff in Hn as [He Ht].
           rewrite (_refresh_token_explicit env w1 c Hc). cbv zeta.
           destruct (refresh env c (clock w1))
             as [d [[access exp]|e1]] eqn:Hr; cbn [fst snd].
           ++ cbn [clock later logged].
              destruct (valid (refreshed c access exp)
                          (clock w1 + Z.of_N d)) eqn:Hv';
                [destruct (writable w1) eqn:Hw1|]; cbn [fst];
                try discriminate.
              intros [= <-].
              apply (raised_by_write env w w1 c d access exp);
                try assumption. congruence.
           ++ destruct (isinstance e1 [RefreshError]) eqn:Hi.
              ** apply flow_raises_from.
                 now apply (flow_after_refresh_error env w w1 c d e1).
              ** cbn [fst]. intros [= <-].
                 now apply (raised_by_refresh env w w1 c d e1).
        -- apply flow_raises_from.
           now apply (flow_without_refresh env w w1 c).
    + rewrite (use_or_renew_none env w1 Hc).
      apply flow_raises_from. now apply flow_without_credential.
  - rewrite (get_credentials_load_raises env w e0 w1 Hl). cbn [fst].
    intros [= <-].
    destruct (token_file w) as [f|] eqn:Hf.
    + rewrite (load_token_file_present env w f Hf) in Hl.
      destruct (read_token_file env f (clock w)) as [c|e1] eqn:Hr;
        [discriminate|].
      destruct (isinstance e1 [ValueError; KeyError]) eqn:Hi;
        [discriminate|].
      injection Hl as -> _. now apply (raised_by_read env w f e0).
    + rewrite (load_token_file_absent env w Hf) in Hl. discriminate.
Qed.

Lemma _run_oauth_flow_returns_valid w c w' :
  provider_yields_valid env ->
  _run_oauth_flow env w = (Return c, w') ->
  valid c (clock w') = true.
Proof.
  intros [_ Hp]. rewrite _run_oauth_flow_explicit. cbv zeta.
  destruct (run_local_server env (clock w)) as [d [c0|cause]] eqn:Hr;
    cbn [fst snd]; [|discriminate].
  pose proof (Hp _ _ _ Hr) as Hv. cbn [clock later logged]. rewrite Hv.
  destruct (writable w); [|discriminate].
  now intros [= <- <-].
Qed.

Lemma use_or_renew_returns_valid w c w' :
  provider_yields_valid env ->
  use_or_renew env w = (Return c, w') ->
  valid c (clock w') = true.
Proof.
  intros Hp.
  destruct (credentials w) as [c0|] eqn:Hc.
  - destruct (valid c0 (clock w)) eqn:Hv.
    + rewrite (use_or_renew_valid env w c0 Hc Hv). now intros [= <- <-].
    + rewrite (use_or_renew_invalid env w c0 Hc Hv).
      destruct (expired c0 (clock w) && truthy (refresh_token c0));
        [|now apply _run_oauth_flow_returns_valid].
      rewrite (_refresh_token_explicit env w c0 Hc). cbv zeta.
      destruct (refresh env c0 (clock w)) as [d [[access exp]|e]] eqn:Hr;
        cbn [fst snd].
      * pose proof (proj1 Hp _ _ _ _ _ Hr) as Hv'.
        cbn [clock later logged]. rewrite Hv'.
        destruct (writable w); [|discriminate].
        now intros [= <- <-].
      * destruct (isinstance e [RefreshError]); [|discriminate].
        now apply _run_oauth_flow_returns_valid.
  - rewrite (use_or_renew_none env w Hc).
    now apply _run_oauth_flow_returns_valid.
Qed.

(** C1, as the code has it: [get_credentials] returns a credential (never
    [None]), which is the one held in memory and, with a provider whose
    refresh and interactive flow hand back valid credentials, is valid at
    the moment of return; or it raises.  It raises exactly in these cases,
    and then exactly this: the exception of the read of the token file
    when it is neither a [ValueError] nor a [KeyError]; the exception of
    the refresh when it is not a [RefreshError]; the [OSError] of the
    write that follows a successful refresh; and the authentication
    failure that carries its cause when the interactive flow fails or
    when the write that follows it does. *)
Theorem get_credentials_contract w :
  (forall e, fst (get_credentials env w) = Raise e <-> raises_from env w e) /\
  (forall c w',
      get_credentials env w = (Return c, w') ->
      credentials w' = Some c /\
      (provider_yields_valid env -> valid c (clock w') = true)).
Proof.
  split.
  - intros e. split; [apply raises_from_complete | apply raises_from_sound].
  - intros c w' Hg. split.
    + destruct (get_credentials_effects env w) as (evs & _ & _ & Hm & _).
      now rewrite Hg in Hm.
    + intros Hp.
      destruct (load_token_file env w) as [[[]|e] w1] eqn:Hl.
      * rewrite (get_credentials_after_load env w w1 Hl) in Hg.
        now apply (use_or_renew_returns_valid w1 c w' Hp).
      * rewrite (get_credentials_load_raises env w e w1 Hl) in Hg.
        discriminate.
Qed.

End Contract.

(** ** What a caller of the manager can rely on *)

Section Reliance.

Variable env : Env.

(** X1: one run of [get_credentials] calls the provider's refresh at most
    once, the interactive flow at most once and only after the refresh,
    writes the token file at most once and last; it never posts to the
    revoke endpoint and never removes the token file. *)
Theorem get_credentials_calls w :
  exists evs,
    log (snd (get_credentials env w)) = (log w ++ evs)%list /\
    renewal_trace evs /\
    (forall tok, ~ In (EvRevoke tok) evs) /\ ~ In EvRemove evs.
Proof.
  destruct (get_credentials_effects env w) as (evs & Ht & Hlog & _).
  exists evs. split; [assumption|]. split; [assumption|].
  split; [intros tok|]; destruct Ht; simpl; intuition discriminate.
Qed.


(** X3: a second call right after a successful one is free: when the
    returned credential is still valid and the token file, if there is
    one, reads back as that credential, [get_credentials] returns it again
    and changes nothing (no call, no write). *)
Theorem get_credentials_again w c w' :
  get_credentials env w = (Return c, w') ->
  valid c (clock w') = true ->
  (forall f, token_file w' = Some f ->
             read_token_file env f (clock w') = Return c) ->
  credentials w' = Some c /\ get_credentials env w' = (Return c, w').
Proof.
  intros Hg Hv Hread.
  assert (Hc : credentials w' = Some c).
  { destruct (get_credentials_effects env w) as (evs & _ & _ & Hm & _).
    now rewrite Hg in Hm. }
  split; [assumption|].
  assert (Hl : load_token_file env w' = (Return tt, w')).
  { destruct (token_file w') as [f|] eqn:Hf.
    - rewrite (load_token_file_present env w' f Hf), (Hread f eq_refl).
      now rewrite <- Hc, with_credentials_same.
    - now apply load_token_file_absent. }
  rewrite (get_credentials_after_load env w' w' Hl).
  now apply use_or_renew_valid.
Qed.

(** X5: [/auth/refresh] does force a refresh when there is no token file:
    with a credential in memory that has a refresh token, the first call
    made is the provider's refresh, on that credential with its expiry set
    to the current time. *)
Theorem force_refresh_without_token_file w c :
  token_file w = None ->
  credentials w = Some c ->
  truthy (refresh_token c) = true ->
  exists rest,
    log (snd (force_refresh env w))
    = (log w ++
       EvRefresh {| token := token c; refresh_token := refresh_token c;
                    expiry := Some (clock w); scopes := scopes c |}
       :: rest)%list.
Proof.
  intros Hf Hc Hrt.
  set (c0 := {| token := token c; refresh_token := refresh_token c;
                expiry := Some (clock w); scopes := scopes c |}).
  set (w0 := with_credentials (Some c0) w).
  assert (Hrun : (bind expire_now (fun _ => get_credentials env)) w
                 = _refresh_token env w0).
  { unfold expire_now, bind, get. rewrite Hc. unfold set_credentials.
    fold c0. fold w0.
    rewrite (get_credentials_after_load env w0 w0
               (load_token_file_absent env w0 Hf)).
    assert (He : expired c0 (clock w0) = true).
    { unfold expired. simpl. apply Z.leb_refl. }
    rewrite (use_or_renew_expired env w0 c0 eq_refl He).
    simpl. now rewrite Hrt. }
  unfold force_refresh. rewrite Hrun.
  destruct (_refresh_token_effects env w0 c0 eq_refl)
    as (evs & Hshape & Hlog & _).
  assert (Hex : exists rest, evs = EvRefresh c0 :: rest).
  { destruct Hshape as [-> | [[text ->] | [-> | [text ->]]]];
      eexists; reflexivity. }
  destruct Hex as [rest ->]. exists rest.
  destruct (_refresh_token env w0) as [[c'|e] w']; exact Hlog.
Qed.

(** X6: once [_is_token_expired_or_expiring_soon] answers [True] it keeps
    doing so as time passes, for as long as the same credential is held. *)
Theorem _is_token_expired_or_expiring_soon_stays w w2 :
  _is_token_expired_or_expiring_soon w = true ->
  credentials w2 = credentials w ->
  clock w <= clock w2 ->
  _is_token_expired_or_expiring_soon w2 = true.
Proof.
  unfold _is_token_expired_or_expiring_soon. intros H Hc Ht. rewrite Hc.
  destruct (credentials w) as [c|]; [|reflexivity].
  destruct (expiry c) as [e|]; [|reflexivity].
  apply Z.leb_le in H. apply Z.leb_le. lia.
Qed.

End Reliance.

(** ** The mail relay *)

Module MailFacts.

Import Mail.

(** *** Paths *)

Lemma has_slash_app a b :
  has_slash (a ++ b) = has_slash a || has_slash b.
Proof.
  induction a as [|x a IH]; simpl; [reflexivity|].
  now rewrite IH, orb_assoc.
Qed.

Lemma basename_no_slash s : has_slash s = false -> basename s = s.
Proof.
  destruct s as [|x r]; [reflexivity|]. intros H.
  cbn [basename]. now rewrite H.
Qed.

Lemma basename_after_slash a b :
  basename (a ++ String "/" b) = basename b.
Proof.
  induction a as [|x a IH].
  - reflexivity.
  - change (String x a ++ String "/" b)%string
      with (String x (a ++ String "/" b)).
    cbn [basename]. rewrite IH.
    assert (H : has_slash (String x (a ++ String "/" b)) = true).
    { cbn [has_slash]. rewrite has_slash_app. cbn [has_slash].
      unfold is_slash at 2. simpl. now rewrite !orb_true_r. }
    now rewrite H.
Qed.

Lemma no_slash_not_absolute s :
  has_slash s = false -> starts_with_slash s = false.
Proof.
  destruct s as [|x r]; [reflexivity|]. simpl.
  intros H. now apply orb_false_iff in H as [H _].
Qed.

(** X7: a plain attachment name (no slash in it) is looked up in the
    [attachments] directory, and the name under which the file is attached
    to the e-mail is that very name. *)
Theorem attachment_name_round_trip name :
  has_slash name = false ->
  path_join "attachments" name = ("attachments/" ++ name)%string /\
  basename (path_join "attachments" name) = name.
Proof.
  intros H.
  assert (Hj : path_join "attachments" name
               = ("attachments" ++ String "/" name)%string).
  { unfold path_join. now rewrite (no_slash_not_absolute name H). }
  split; [exact Hj|].
  rewrite Hj, basename_after_slash. now apply basename_no_slash.
Qed.

Section WithServices.

Variable env : Env.
Variable svc : Services.

(** *** The attachments that are sent *)

Lemma existing_files_filter names :
  existing_files svc names
  = filter (isfile svc) (map (path_join "attachments") names).
Proof.
  induction names as [|n names IH]; [reflexivity|].
  cbn [existing_files map filter]. rewrite IH.
  now destruct (isfile svc (path_join "attachments" n)).
Qed.

(** X8: the paths handed to the message builder are, in the order of the
    request, exactly the joined paths that are files: an attachment whose
    file is missing is dropped without an error. *)
Theorem existing_files_spec names file_path :
  In file_path (existing_files svc names) <->
  exists name,
    In name names /\ file_path = path_join "attachments" name /\
    isfile svc file_path = true.
Proof.
  rewrite existing_files_filter, filter_In, in_map_iff. split.
  - intros [(name & <- & Hin) Hf]. now exists name.
  - intros (name & Hin & -> & Hf). split; [now exists name | assumption].
Qed.

(** X9: an attachment name that starts with a slash is not confined to the
    [attachments] directory: when a file exists at that absolute path, it
    is that file which is attached. *)
Theorem absolute_attachment_name_escapes names name :
  In name names ->
  starts_with_slash name = true ->
  isfile svc name = true ->
  path_join "attachments" name = name /\
  In name (existing_files svc names).
Proof.
  intros Hin Habs Hf.
  assert (Hj : path_join "attachments" name = name).
  { unfold path_join. now rewrite Habs. }
  split; [assumption|].
  rewrite existing_files_filter. apply filter_In. split; [|assumption].
  apply in_map_iff. now exists name.
Qed.

(** *** The message *)

Lemma attach_all_parts file_paths attached :
  attach_all svc file_paths = Ok attached ->
  Forall2 (fun file_path part =>
             read_file svc file_path = Return (part_payload part) /\
             part_filename part = Some (basename file_path))
          file_paths attached.
Proof.
  revert attached.
  induction file_paths as [|p rest IH]; intros attached H.
  - injection H as <-. constructor.
  - cbn [attach_all] in H.
    destruct (attachment svc p) as [part|r] eqn:Hp; [|discriminate].
    destruct (attach_all svc rest) as [more|r]; [|discriminate].
    injection H as <-. constructor; [|now apply IH].
    unfold attachment in Hp.
    destruct (split_once _) as [[main sub]|]; [|discriminate].
    destruct (read_file svc p) as [data|e]; [|discriminate].
    injection Hp as <-. now split.
Qed.

Lemma attach_all_unreadable file_paths file_path e :
  In file_path file_paths ->
  read_file svc file_path = Raise e ->
  exists r, attach_all svc file_paths = Err r.
Proof.
  intros Hin Hr.
  induction file_paths as [|p rest IH]; [destruct Hin|].
  cbn [attach_all].
  destruct (attachment svc p) as [part|r] eqn:Hp; [|now exists r].
  destruct Hin as [-> | Hin].
  - unfold attachment in Hp.
    destruct (split_once _) as [[main sub]|]; [|discriminate].
    rewrite Hr in Hp. discriminate.
  - destruct (IH Hin) as [r ->]. now exists r.
Qed.

(** X10: a message that is built has the body text as its first part,
    without a file name, followed by one part for each path, in the order
    of the paths; each carries what was read from its file and, as file
    name, the base name of its path. *)
Theorem create_message_with_attachments_parts
    now sender to subject text file_paths msg :
  create_message_with_attachments svc now sender to subject text file_paths
  = Ok msg ->
  header_to msg = to /\ header_from msg = sender /\
  header_subject msg = subject /\
  exists attached,
    parts msg = {| part_class := MIMEText; part_payload := text;
                   part_filename := None |} :: attached /\
    Forall2 (fun file_path part =>
               read_file svc file_path = Return (part_payload part) /\
               part_filename part = Some (basename file_path))
            file_paths attached.
Proof.
  unfold create_message_with_attachments.
  destruct (attach_all svc file_paths) as [attached|r] eqn:Ha;
    [|discriminate].
  intros [= <-]. cbn. repeat split.
  exists attached. split; [reflexivity | now apply attach_all_parts].
Qed.

(** X11: when one of the files cannot be read, no message is built: the
    call raises. *)
Theorem create_message_with_attachments_unreadable
    now sender to subject text file_paths file_path e :
  In file_path file_paths ->
  read_file svc file_path = Raise e ->
  exists r,
    create_message_with_attachments svc now sender to subject text file_paths
    = Err r.
Proof.
  intros Hin Hr. unfold create_message_with_attachments.
  destruct (attach_all_unreadable file_paths file_path e Hin Hr) as [r ->].
  now exists r.
Qed.

(** *** Sending *)

Lemma send_message_run creds user_id msg mw :
  send_message svc creds user_id msg mw =
  let reply := execute svc creds user_id msg (clock (manager mw)) in
  let mw1 := {| manager := later (fst reply) (manager mw);
                outbox := outbox mw |} in
  let mw2 := {| manager := later (fst reply) (manager mw);
                outbox := (outbox mw ++ [(creds, msg)])%list |} in
  match snd reply with
  | Accepted (Some id) => (Ok (Some (Some id)), mw2)
  | Accepted None => (Err (Base (Exn KeyError "'id'")), mw2)
  | Rejected _ => (Ok None, mw1)
  | Failed e => (Err (Base e), mw1)
  end.
Proof.
  unfold send_message, users_messages_send, try_except_HttpError,
    Mail.bind, Mail.get, elapse, deliver, Mail.ret, Mail.raise, Mail.lift.
  cbv zeta.
  destruct (execute svc creds user_id msg (clock (manager mw)))
    as [d [[id|]|text|e]]; reflexivity.
Qed.

(** The task up to the point where the message is handed to
    [send_message]. *)
Lemma send_email_task_run recipient mw :
  send_email_task env svc recipient mw =
  match get_credentials env (manager mw) with
  | (Raise _, w1) => (Ok false, {| manager := w1; outbox := outbox mw |})
  | (Return creds, w1) =>
      let service := build svc creds (clock w1) in
      let w2 := later (fst service) w1 in
      let mw2 := {| manager := w2; outbox := outbox mw |} in
      match snd service with
      | Raise _ => (Ok false, mw2)
      | Return _ =>
          match attachments recipient with
          | None => (Ok false, mw2)
          | Some names =>
              match create_message_with_attachments svc (clock w2) "me"
                      (email recipient) (subject recipient) (body recipient)
                      (existing_files svc names) with
              | Err _ => (Ok false, mw2)
              | Ok msg =>
                  match send_message svc creds "me" msg mw2 with
                  | (Ok _, mw3) => (Ok true, mw3)
                  | (Err _, mw3) => (Ok false, mw3)
                  end
              end
          end
      end
  end.
Proof.
  unfold send_email_task, try_except_Exception, on_manager,
    Mail.bind, Mail.get, elapse, Mail.ret, Mail.lift, iter.
  destruct (get_credentials env (manager mw)) as [[creds|e] w1];
    [|reflexivity].
  cbn [manager outbox]. cbv zeta.
  destruct (build svc creds (clock w1)) as [d [[]|e]]; cbn [fst snd];
    [|reflexivity].
  destruct (attachments recipient) as [names|]; [|reflexivity].
  cbn [manager].
  destruct (create_message_with_attachments svc (clock (later d w1)) "me"
              (email recipient) (subject recipient) (body recipient)
              (existing_files svc names)) as [msg|r]; [|reflexivity].
  destruct (send_message svc creds "me" msg
              {| manager := later d w1; outbox := outbox mw |})
    as [[sent|r] mw3]; reflexivity.
Qed.




(** X13: what the task answers is not whether the mail went out: when the
    provider rejects the message with an [HttpError], [send_message]
    swallows the error and the task still answers [True], with nothing
    added to the outbox. *)
Theorem send_email_task_rejected recipient mw creds w1 d names msg d' text :
  get_credentials env (manager mw) = (Return creds, w1) ->
  build svc creds (clock w1) = (d, Return tt) ->
  attachments recipient = Some names ->
  create_message_with_attachments svc (clock w1 + Z.of_N d) "me"
    (email recipient) (subject recipient) (body recipient)
    (existing_files svc names) = Ok msg ->
  execute svc creds "me" msg (clock w1 + Z.of_N d) = (d', Rejected text) ->
  send_email_task env svc recipient mw
  = (Ok true, {| manager := later d' (later d w1); outbox := outbox mw |}).
Proof.
  intros Hg Hb Ha Hm He.
  rewrite send_email_task_run, Hg. cbv zeta. rewrite Hb. cbn [fst snd].
  rewrite Ha. cbn [clock later]. rewrite Hm, send_message_run.
  cbn [manager clock later outbox]. rewrite He. reflexivity.
Qed.

(** *** The status check *)

(** X15: [/auth/status] is not a passive check: asked of a manager that
    holds no credential and has no token file, it starts the interactive
    authorization flow. *)
Theorem auth_status_starts_the_flow w :
  credentials w = None -> token_file w = None ->
  exists rest,
    log (snd (auth_status env w)) = (log w ++ EvAuthorize :: rest)%list.
Proof.
  intros Hc Hf. unfold auth_status.
  rewrite (get_credentials_after_load env w w
             (load_token_file_absent env w Hf)).
  rewrite (use_or_renew_none env w Hc).
  destruct (_run_oauth_flow_log env w) as (rest & Hlog & _).
  exists rest. destruct (_run_oauth_flow env w) as [[c|e] w']; exact Hlog.
Qed.

End WithServices.

End MailFacts.

(** * Sample runs *)

Module Runs.

Import Sample.

Lemma online_yields_valid : provider_yields_valid online.
Proof.
  split.
  - intros c now d access exp [= <- <- <-].
    unfold valid, expired; simpl. apply negb_true_iff, Z.leb_gt. lia.
  - intros now d c [= <- <-].
    unfold valid, expired; simpl. apply negb_true_iff, Z.leb_gt. lia.
Qed.

Lemma offline_yields_valid : provider_yields_valid offline.
Proof.
  split.
  - intros c now d access exp [=].
  - exact (proj2 online_yields_valid).
Qed.

(** C1: a stale credential on file.  With a provider that answers, the
    refreshed credential is returned, held in memory and valid; with the
    network down, the transport error of the refresh is what is raised. *)
Lemma get_credentials_contract_run :
  (credentials (snd (get_credentials online (started (stored "stale"))))
   = Some (refreshed stale "ya29.live" (Some 4600)) /\
   (provider_yields_valid online ->
    valid (refreshed stale "ya29.live" (Some 4600))
          (clock (snd (get_credentials online (started (stored "stale")))))
    = true)) /\
  raises_from offline (started (stored "stale"))
    (Exn TransportError "HTTPSConnectionPool: Max retries exceeded").
Proof.
  split.
  - exact (proj2 (get_credentials_contract online (started (stored "stale")))
             (refreshed stale "ya29.live" (Some 4600))
             (snd (get_credentials online (started (stored "stale"))))
             eq_refl).
  - exact (proj1 (proj1 (get_credentials_contract offline
                           (started (stored "stale")))
                    (Exn TransportError
                         "HTTPSConnectionPool: Max retries exceeded"))
             eq_refl).
Defined.

(** C1 fails as stated: with the network down, the refresh of a stale
    credential raises a transport error, which [get_credentials] lets
    through: the caller gets neither a credential nor an authentication
    failure, although the interactive flow would have succeeded. *)
Lemma get_credentials_lets_transport_error_through :
  provider_yields_valid offline /\
  fst (get_credentials offline (started (stored "stale")))
  = Raise (Exn TransportError "HTTPSConnectionPool: Max retries exceeded") /\
  ~ valid_or_authentication_failure
      (get_credentials offline (started (stored "stale"))).
Proof.
  split; [exact offline_yields_valid|].
  split; [reflexivity|].
  vm_compute. intros [cause H]. discriminate H.
Qed.

(** C2: the stale credential on file has a refresh token: the refresh
    comes first. *)
Lemma expired_credential_renewal_run :
  get_credentials online (started (stored "stale"))
  = _refresh_token online (holding stale (stored "stale")) /\
  exists rest,
    log (snd (get_credentials online (started (stored "stale"))))
    = EvRefresh stale :: rest.
Proof.
  exact (expired_credential_renewal online
           (started (stored "stale")) (holding stale (stored "stale")) stale
           eq_refl eq_refl eq_refl).
Defined.

(** C3: the stale credential on file is refreshed.  When the provider
    rejects its refresh token and the consent screen cannot be served,
    the caller sees the authentication failure of the flow, not the
    refresh error; when the provider answers, the refreshed credential is
    written to the token file and returned. *)
Lemma refresh_outcome_handling_run :
  (get_credentials rejecting (started (stored "stale"))
   = _run_oauth_flow rejecting
       (later 1 (logged (EvRefresh stale) (holding stale (stored "stale")))) /\
   In EvAuthorize
      (log (snd (get_credentials rejecting (started (stored "stale"))))) /\
   forall e',
     fst (get_credentials rejecting (started (stored "stale"))) = Raise e' ->
     class_of e' = HTTPException 500) /\
  get_credentials online (started (stored "stale"))
  = (Return (refreshed stale "ya29.live" (Some 4600)),
     written (to_json online (refreshed stale "ya29.live" (Some 4600)))
       (with_credentials (Some (refreshed stale "ya29.live" (Some 4600)))
          (later 1 (logged (EvRefresh stale)
                      (holding stale (stored "stale")))))).
Proof.
  split.
  - exact (refresh_outcome_handling rejecting
             (started (stored "stale")) (holding stale (stored "stale")) stale
             eq_refl eq_refl eq_refl eq_refl eq_refl).
  - exact (refresh_outcome_handling online
             (started (stored "stale")) (holding stale (stored "stale")) stale
             eq_refl eq_refl eq_refl eq_refl).
Defined.

(** C3 fails as stated: the token file may not be opened for writing; the
    refresh of the stale credential succeeds, but the write that follows
    raises, and [get_credentials] lets that error through: the refreshed
    credential is neither persisted nor returned. *)
Lemma refreshed_credential_lost_on_write_error :
  refresh online stale 1000 = (1%N, Return ("ya29.live", Some 4600)) /\
  fst (get_credentials online (sealed (started (stored "stale"))))
  = Raise permission_denied /\
  token_file (snd (get_credentials online (sealed (started (stored "stale")))))
  = stored "stale" /\
  ~ persisted_and_returned online (sealed (started (stored "stale")))
      (refreshed stale "ya29.live" (Some 4600)).
Proof.
  split; [reflexivity|]. split; [reflexivity|]. split; [reflexivity|].
  intros (w' & f & Hg & _). vm_compute in Hg. discriminate Hg.
Qed.

(** C4 and C10, at one input: the granted credential is held and is
    valid; the run refreshes it and stops at [request.post]: the answer is
    [False], the token file is still there and the only call made is the
    refresh. *)
Lemma revoke_token_at_granted :
  revoke_token online (holding granted (stored "granted"))
  = (Return false,
     with_credentials (Some (refreshed granted "ya29.live" (Some 4600)))
       (later 1 (logged (EvRefresh granted)
                   (holding granted (stored "granted"))))).
Proof. reflexivity. Qed.



(** C6: a credential without expiry on file. *)
Lemma unexpiring_credential_is_returned_run :
  (forall now, valid unexpiring now = true) /\
  get_credentials online (started (stored "unexpiring"))
  = (Return unexpiring, holding unexpiring (stored "unexpiring")) /\
  log (holding unexpiring (stored "unexpiring"))
  = log (started (stored "unexpiring")) /\
  token_file (holding unexpiring (stored "unexpiring"))
  = token_file (started (stored "unexpiring")).
Proof.
  exact (unexpiring_credential_is_returned online
           (started (stored "unexpiring"))
           (holding unexpiring (stored "unexpiring")) unexpiring
           eq_refl eq_refl eq_refl eq_refl).
Defined.

(** C7: the live credential, saved by a manager without token file and
    read back half a minute later. *)
Lemma save_then_load_round_trip_run :
  (exists f,
      token_file (snd (_save_credentials online (holding live None))) = Some f /\
      content f = to_json online live) /\
  load_token_file online (later 30 (started (stored "live")))
  = (Return tt,
     with_credentials (Some live) (later 30 (started (stored "live")))).
Proof.
  refine (save_then_load_round_trip online (holding live None) live
            (later 30 (started (stored "live")))
            eq_refl eq_refl eq_refl _ eq_refl).
  intros f [=].
Defined.

(** C7 fails as stated: a valid credential that has no refresh token is
    saved without that field, and the SDK's parser rejects the record
    with a [ValueError]: loading gives no credential back. *)
Lemma credential_without_refresh_token_is_not_loaded_back :
  valid bearer 1000 = true /\
  token_file (snd (_save_credentials sdk (holding bearer None)))
  = stored bearer_text /\
  load_token_file sdk (snd (_save_credentials sdk (holding bearer None)))
  = (Return tt,
     with_credentials None (snd (_save_credentials sdk (holding bearer None)))) /\
  ~ round_trips sdk (holding bearer None) bearer.
Proof.
  split; [reflexivity|]. split; [reflexivity|]. split; [reflexivity|].
  intros H.
  destruct (H (snd (_save_credentials sdk (holding bearer None))) eq_refl)
    as (w3 & d & Hl & Hc & _).
  vm_compute in Hl. injection Hl as <-. discriminate Hc.
Qed.

(** C8: a manager that was never given a credential. *)
Lemma revoke_token_without_valid_credential_run :
  revoke_token online (started None) = (Return false, started None).
Proof.
  exact (revoke_token_without_valid_credential online (started None) eq_refl).
Defined.


(** C10: the granted credential is refreshed and held with its new access
    token; no token is submitted. *)
Lemma revoke_token_refreshes_first_run :
  exists w',
    revoke_token online (holding granted (stored "granted"))
    = (Return false, w') /\
    log w' = [EvRefresh granted] /\
    token_file w' = stored "granted" /\
    credentials w' = Some (refreshed granted "ya29.live" (Some 4600)) /\
    token (refreshed granted "ya29.live" (Some 4600)) = Some "ya29.live".
Proof.
  exact (revoke_token_refreshes_first online
           (holding granted (stored "granted")) granted eq_refl eq_refl).
Defined.

End Runs.

Module MoreRuns.

Import Sample Mail MailSample MailFacts.

(** X3: the live credential is on file; asking twice gives it twice. *)
Lemma get_credentials_again_run :
  credentials (holding live (stored "live")) = Some live /\
  get_credentials online (holding live (stored "live"))
  = (Return live, holding live (stored "live")).
Proof.
  refine (get_credentials_again online (started (stored "live")) live
            (holding live (stored "live")) eq_refl eq_refl _).
  intros f [= <-]. reflexivity.
Defined.

(** X5: no token file, the live credential in memory. *)
Lemma force_refresh_without_token_file_run :
  exists rest,
    log (snd (force_refresh online (holding live None)))
    = EvRefresh {| token := Some "ya29.live";
                   refresh_token := Some "1//refresh";
                   expiry := Some 1000; scopes := SCOPES |} :: rest.
Proof.
  exact (force_refresh_without_token_file online (holding live None) live
           eq_refl eq_refl eq_refl).
Defined.

(** X6: the stale credential, now and ten seconds later. *)
Lemma _is_token_expired_or_expiring_soon_stays_run :
  _is_token_expired_or_expiring_soon (later 10 (holding stale None)) = true.
Proof.
  refine (_is_token_expired_or_expiring_soon_stays (holding stale None)
            (later 10 (holding stale None)) eq_refl eq_refl _).
  simpl. lia.
Defined.

(** X7: a plain file name. *)
Lemma attachment_name_round_trip_run :
  path_join "attachments" "report.pdf" = "attachments/report.pdf" /\
  basename (path_join "attachments" "report.pdf") = "report.pdf".
Proof.
  exact (attachment_name_round_trip "report.pdf" eq_refl).
Defined.

(** X9: a request that names a file of the system. *)
Lemma absolute_attachment_name_escapes_run :
  path_join "attachments" "/etc/hostname" = "/etc/hostname" /\
  In "/etc/hostname"
     (existing_files accepting ["notes.txt"; "/etc/hostname"]).
Proof.
  refine (absolute_attachment_name_escapes accepting
            ["notes.txt"; "/etc/hostname"] "/etc/hostname" _ eq_refl eq_refl).
  right. left. reflexivity.
Defined.

(** X10: the minutes with two attachments. *)
Lemma create_message_with_attachments_parts_run :
  exists msg,
    create_message_with_attachments accepting 1000 "me" "alice@example.org"
      "Minutes" "Please find the minutes attached."
      ["attachments/notes.txt"; "attachments/report.pdf"] = Ok msg /\
    map part_filename (parts msg)
    = [None; Some "notes.txt"; Some "report.pdf"] /\
    header_to msg = "alice@example.org" /\ header_from msg = "me" /\
    header_subject msg = "Minutes" /\
    exists attached,
      parts msg = {| part_class := MIMEText;
                     part_payload := "Please find the minutes attached.";
                     part_filename := None |} :: attached /\
      Forall2 (fun file_path part =>
                 read_file accepting file_path = Return (part_payload part) /\
                 part_filename part = Some (basename file_path))
              ["attachments/notes.txt"; "attachments/report.pdf"] attached.
Proof.
  eexists. split; [reflexivity|]. split; [reflexivity|].
  exact (create_message_with_attachments_parts accepting 1000 "me"
           "alice@example.org" "Minutes" "Please find the minutes attached."
           ["attachments/notes.txt"; "attachments/report.pdf"] _ eq_refl).
Defined.

(** X11: one of the files has gone. *)
Lemma create_message_with_attachments_unreadable_run :
  exists r,
    create_message_with_attachments accepting 1000 "me" "alice@example.org"
      "Minutes" "Please find the minutes attached."
      ["attachments/notes.txt"; "attachments/agenda.txt"] = Err r.
Proof.
  refine (create_message_with_attachments_unreadable accepting 1000 "me"
            "alice@example.org" "Minutes" "Please find the minutes attached."
            ["attachments/notes.txt"; "attachments/agenda.txt"]
            "attachments/agenda.txt"
            (Exn OSError "[Errno 2] No such file or directory") _ eq_refl).
  right. left. reflexivity.
Defined.

(** X13: the provider refuses the minutes; the task answers [True]. *)
Lemma send_email_task_rejected_run :
  send_email_task online refusing to_alice
    (relay (started (stored "live")))
  = (Ok true,
     {| manager := later 2 (later 0 (holding live (stored "live")));
        outbox := [] |}).
Proof.
  exact (send_email_task_rejected online refusing to_alice
           (relay (started (stored "live"))) live
           (holding live (stored "live")) 0 ["notes.txt"; "agenda.txt"]
           _ 2 "HttpError 429: User-rate limit exceeded"
           eq_refl eq_refl eq_refl eq_refl eq_refl).
Defined.

(** X15: a manager that has just been started, without token file. *)
Lemma auth_status_starts_the_flow_run :
  exists rest,
    log (snd (auth_status online (started None))) = EvAuthorize :: rest.
Proof.
  exact (auth_status_starts_the_flow online (started None) eq_refl eq_refl).
Defined.

End MoreRuns.
